(** * SnakeGamePython/Snake.py: the snake game of class [SnakeGame]

    A shallow embedding of the methods of class [SnakeGame], in two layers.

    The engine: the state-carrying part of [reset_game], [start_game],
    [move_snake], [check_collisions], [place_food], [change_direction],
    [game_over] and [game_loop], on the game state variables alone.

    The window (module [Tk]): the same methods with the Tkinter calls that
    write the canvas, the score label and the two buttons, [create_objects],
    the constructor and the dispatch of the bound events.

    Coordinates are the pixel coordinates the source stores (multiples of
    [GRID_SIZE]); Python integers are unbounded, hence [Z]. *)

From Stdlib Require Import ZArith List Bool Lia.
From Stdlib Require String DecimalString.
Import ListNotations.
Import String.StringSyntax.

#[local] Open Scope Z_scope.
#[local] Open Scope string_scope.

(** ** Game constants (Snake.py, lines 6-8) *)

Definition GRID_SIZE : Z := 20.
Definition WIDTH : Z := 600.
Definition HEIGHT : Z := 400.

(** ** Data *)

(** [self.direction] holds one of the four strings ['Up'], ['Down'],
    ['Left'], ['Right']: the key bindings pass nothing else. *)
Inductive Direction : Set := Up | Down | Left | Right.

(** A snake segment or the food: the tuple [(x, y)]. *)
Definition Cell : Set := (Z * Z)%type.

(** The game state variables of [__init__] (lines 46-51).  [snake] is the
    deque, leftmost element first; [food] is [None] until [place_food] ran. *)
Record SnakeGame : Set := mkGame {
  snake : list Cell;
  food : option Cell;
  direction : Direction;
  score : Z;
  game_over_state : bool;
  game_running : bool
}.

Definition set_snake (s : list Cell) (self : SnakeGame) : SnakeGame :=
  mkGame s (food self) (direction self) (score self)
         (game_over_state self) (game_running self).

Definition set_food (f : option Cell) (self : SnakeGame) : SnakeGame :=
  mkGame (snake self) f (direction self) (score self)
         (game_over_state self) (game_running self).

Definition set_direction (d : Direction) (self : SnakeGame) : SnakeGame :=
  mkGame (snake self) (food self) d (score self)
         (game_over_state self) (game_running self).

Definition set_score (n : Z) (self : SnakeGame) : SnakeGame :=
  mkGame (snake self) (food self) (direction self) n
         (game_over_state self) (game_running self).

Definition set_game_over_state (b : bool) (self : SnakeGame) : SnakeGame :=
  mkGame (snake self) (food self) (direction self) (score self)
         b (game_running self).

Definition set_game_running (b : bool) (self : SnakeGame) : SnakeGame :=
  mkGame (snake self) (food self) (direction self) (score self)
         (game_over_state self) b.

(** ** Equality and membership of tuples *)

Definition cell_eqb (a b : Cell) : bool :=
  (fst a =? fst b) && (snd a =? snd b).

(** [c in s] on a deque or list of tuples. *)
Definition cell_in (c : Cell) (s : list Cell) : bool :=
  existsb (cell_eqb c) s.

(** [new_head == self.food]: a tuple never equals [None]. *)
Definition is_food (c : Cell) (f : option Cell) : bool :=
  match f with
  | Some c' => cell_eqb c c'
  | None => false
  end.

Definition direction_eqb (a b : Direction) : bool :=
  match a, b with
  | Up, Up | Down, Down | Left, Left | Right, Right => true
  | _, _ => false
  end.

(** ** The deque operations the game uses *)

Definition appendleft (c : Cell) (s : list Cell) : list Cell := c :: s.

(** [deque.pop()] removes the rightmost element and raises [IndexError] on
    an empty deque. *)
Definition pop (s : list Cell) : option (list Cell) :=
  match s with
  | [] => None
  | _ :: _ => Some (removelast s)
  end.

(** ** The random source

    [random.randint(a, b)] returns some integer of [a..b], both ends
    included.  The generator is a sequence of raw integers and a cursor;
    every sequence of in-range results is produced by some [draws]. *)
Record Rng : Type := mkRng {
  draws : nat -> Z;
  cursor : nat
}.

Definition randint (a b : Z) (r : Rng) : Z * Rng :=
  (a + (draws r (cursor r)) mod (b - a + 1),
   mkRng (draws r) (S (cursor r))).

(** ** Outcomes of a method call

    A call returns ([Done]), raises [IndexError], or is still inside the
    [while True] loop of [place_food] when the fuel is used up. *)
Inductive Res (A : Type) : Type :=
| Done (a : A)
| IndexError
| OutOfFuel.

Arguments Done {A} a.
Arguments IndexError {A}.
Arguments OutOfFuel {A}.

(** Which exit of [move_snake] a call left through.  The method itself
    returns [None] at each of them. *)
Inductive TickExit : Set :=
| Idle       (* line 143: game over or not running *)
| GameOver   (* line 162: collision *)
| Ate        (* line 170: food eaten, new food placed *)
| Moved.     (* line 172: tail removed *)

(** ** Methods *)

(** [check_collisions] (lines 176-197). *)
Definition check_collisions (self : SnakeGame) (head : Cell) : bool :=
  let '(head_x, head_y) := head in
  if negb ((0 <=? head_x) && (head_x <? WIDTH) &&
           (0 <=? head_y) && (head_y <? HEIGHT))
  then true
  else if cell_in head (tl (snake self))
  then true
  else false.

(** [place_food] (lines 199-210): one unit of fuel per iteration of the
    [while True] loop. *)
Fixpoint place_food (fuel : nat) (self : SnakeGame) (r : Rng)
  : Res (SnakeGame * Rng) :=
  match fuel with
  | O => OutOfFuel
  | S fuel' =>
      let (rx, r1) := randint 0 (WIDTH / GRID_SIZE - 1) r in
      let x := rx * GRID_SIZE in
      let (ry, r2) := randint 0 (HEIGHT / GRID_SIZE - 1) r1 in
      let y := ry * GRID_SIZE in
      let new_food_pos := (x, y) in
      if negb (cell_in new_food_pos (snake self))
      then Done (set_food (Some new_food_pos) self, r2)
      else place_food fuel' self r2
  end.

(** [game_over] (lines 230-241). *)
Definition game_over (self : SnakeGame) : SnakeGame :=
  set_game_running false (set_game_over_state true self).

(** The new head of [move_snake] (lines 146-157). *)
Definition new_head_of (d : Direction) (head : Cell) : Cell :=
  let '(head_x, head_y) := head in
  match d with
  | Up => (head_x, head_y - GRID_SIZE)
  | Down => (head_x, head_y + GRID_SIZE)
  | Left => (head_x - GRID_SIZE, head_y)
  | Right => (head_x + GRID_SIZE, head_y)
  end.

(** [move_snake] (lines 137-174). *)
Definition move_snake (fuel : nat) (self : SnakeGame) (r : Rng)
  : Res (TickExit * SnakeGame * Rng) :=
  if game_over_state self || negb (game_running self)
  then Done (Idle, self, r)
  else
    match snake self with
    | [] => IndexError
    | head :: _ =>
        let new_head := new_head_of (direction self) head in
        if check_collisions self new_head
        then Done (GameOver, game_over self, r)
        else
          let self1 := set_snake (appendleft new_head (snake self)) self in
          if is_food new_head (food self1)
          then
            let self2 := set_score (score self1 + 1) self1 in
            match place_food fuel self2 r with
            | Done (self3, r') => Done (Ate, self3, r')
            | IndexError => IndexError
            | OutOfFuel => OutOfFuel
            end
          else
            match pop (snake self1) with
            | Some s => Done (Moved, set_snake s self1, r)
            | None => IndexError
            end
    end.

(** [change_direction] (lines 212-228). *)
Definition change_direction (new_direction : Direction) (self : SnakeGame)
  : SnakeGame :=
  if game_over_state self || negb (game_running self)
  then self
  else if direction_eqb new_direction Left &&
          negb (direction_eqb (direction self) Right)
  then set_direction new_direction self
  else if direction_eqb new_direction Right &&
          negb (direction_eqb (direction self) Left)
  then set_direction new_direction self
  else if direction_eqb new_direction Up &&
          negb (direction_eqb (direction self) Down)
  then set_direction new_direction self
  else if direction_eqb new_direction Down &&
          negb (direction_eqb (direction self) Up)
  then set_direction new_direction self
  else self.

(** [reset_game] (lines 81-109). *)
Definition reset_game (fuel : nat) (initial_setup : bool)
  (self : SnakeGame) (r : Rng) : Res (SnakeGame * Rng) :=
  let self :=
    if game_running self && negb initial_setup
    then set_game_running false self
    else self in
  let self := set_snake [] self in
  let self := set_food None self in
  let head_x := (WIDTH / 2 / GRID_SIZE) * GRID_SIZE in
  let head_y := (HEIGHT / 2 / GRID_SIZE) * GRID_SIZE in
  let self :=
    fold_left
      (fun self i =>
         set_snake
           (appendleft (head_x - Z.of_nat i * GRID_SIZE, head_y) (snake self))
           self)
      (seq 0 3) self in
  let self := set_direction Right self in
  let self := set_score 0 self in
  let self := set_game_over_state false self in
  place_food fuel self r.

(** [game_loop] (lines 243-254): the timer callback; scheduling the next
    call and cancelling a pending one do not touch the game state. *)
Definition game_loop (fuel : nat) (self : SnakeGame) (r : Rng)
  : Res (SnakeGame * Rng) :=
  if negb (game_over_state self) && game_running self
  then
    match move_snake fuel self r with
    | Done (_, self', r') => Done (self', r')
    | IndexError => IndexError
    | OutOfFuel => OutOfFuel
    end
  else Done (self, r).

(** Lines 116-117 of [start_game]: the two flag assignments. *)
Definition set_started (self : SnakeGame) : SnakeGame :=
  set_game_over_state false (set_game_running true self).

(** [start_game] (lines 111-120): sets the flags and makes the first call
    of [game_loop] itself. *)
Definition start_game (fuel : nat) (self : SnakeGame) (r : Rng)
  : Res (SnakeGame * Rng) :=
  if negb (game_running self)
  then game_loop fuel (set_started self) r
  else Done (self, r).

(** The state variables as [__init__] assigns them (lines 46-51), and the
    constructor itself, which ends in [reset_game(initial_setup=True)]. *)
Definition fresh_fields : SnakeGame :=
  mkGame [] None Right 0 false false.

Definition init (fuel : nat) (r : Rng) : Res (SnakeGame * Rng) :=
  reset_game fuel true fresh_fields r.

(** ** Notions the properties are stated with *)

(** The cell at the middle of the canvas, as [reset_game] computes it. *)
Definition center : Cell :=
  ((WIDTH / 2 / GRID_SIZE) * GRID_SIZE, (HEIGHT / 2 / GRID_SIZE) * GRID_SIZE).

(** The cell [n] grid steps to the left of [c]. *)
Definition left_of (n : Z) (c : Cell) : Cell :=
  (fst c - n * GRID_SIZE, snd c).

(** Inside the canvas: [0 <= x < WIDTH] and [0 <= y < HEIGHT]. *)
Definition in_bounds (c : Cell) : Prop :=
  0 <= fst c < WIDTH /\ 0 <= snd c < HEIGHT.

(** A cell of the grid: inside the canvas and aligned on [GRID_SIZE]. *)
Definition grid_cell (c : Cell) : Prop :=
  in_bounds c /\ (fst c) mod GRID_SIZE = 0 /\ (snd c) mod GRID_SIZE = 0.

(** The opposite pairs: Up/Down and Left/Right. *)
Definition opposite (d : Direction) : Direction :=
  match d with
  | Up => Down
  | Down => Up
  | Left => Right
  | Right => Left
  end.

(** The game is being played: running and not over. *)
Definition playing (self : SnakeGame) : Prop :=
  game_running self = true /\ game_over_state self = false.

(** The game has ended. *)
Definition ended (self : SnakeGame) : Prop :=
  game_over_state self = true /\ game_running self = false.

(** The head a tick would move to. *)
Definition next_head (self : SnakeGame) : Cell :=
  new_head_of (direction self) (hd (0, 0) (snake self)).

(** The food is somewhere and no segment of the snake is on it. *)
Definition food_clear (self : SnakeGame) : Prop :=
  exists c, food self = Some c /\ ~ In c (snake self).

(** The cell drawn by iteration [k] (from 0) of the loop of [place_food]
    started on generator [r], and the generator after [k] iterations: two
    draws per iteration. *)
Definition candidate (r : Rng) (k : nat) : Cell :=
  ((draws r (2 * k + cursor r)%nat mod (WIDTH / GRID_SIZE)) * GRID_SIZE,
   (draws r (S (2 * k + cursor r)) mod (HEIGHT / GRID_SIZE)) * GRID_SIZE).

Definition skip (k : nat) (r : Rng) : Rng :=
  mkRng (draws r) (2 * k + cursor r)%nat.

(** [place_food] comes back on [self], whatever the generator. *)
Definition place_food_terminates (self : SnakeGame) : Prop :=
  forall r, exists fuel res, place_food fuel self r = Done res.

(** One call from outside: the handlers bound to the keys, the buttons and
    the timer, and also [move_snake] and the flag assignments of
    [start_game] on their own. *)
Inductive call : SnakeGame -> SnakeGame -> Prop :=
| call_reset fuel self r self' r' :
    reset_game fuel false self r = Done (self', r') -> call self self'
| call_start fuel self r self' r' :
    start_game fuel self r = Done (self', r') -> call self self'
| call_set_started self :
    game_running self = false -> call self (set_started self)
| call_change_direction d self :
    call self (change_direction d self)
| call_move_snake fuel self r e self' r' :
    move_snake fuel self r = Done (e, self', r') -> call self self'
| call_game_loop fuel self r self' r' :
    game_loop fuel self r = Done (self', r') -> call self self'.

(** The states a game goes through: the constructor's, then any calls. *)
Inductive reachable : SnakeGame -> Prop :=
| reach_init fuel r self r' :
    init fuel r = Done (self, r') -> reachable self
| reach_call self self' :
    reachable self -> call self self' -> reachable self'.

(** A snake on every cell of the grid: row after row, left to right on the
    even rows and right to left on the odd ones. *)
Definition full_row (y : nat) : list Cell :=
  let xs := map (fun x => (Z.of_nat x * GRID_SIZE, Z.of_nat y * GRID_SIZE))
                (seq 0 (Z.to_nat (WIDTH / GRID_SIZE))) in
  if Nat.even y then xs else rev xs.

Definition full_snake : list Cell :=
  flat_map full_row (seq 0 (Z.to_nat (HEIGHT / GRID_SIZE))).

Definition full_game : SnakeGame :=
  mkGame full_snake (Some (0, 0)) Left 597 false true.

(** Duplicate-free, as a test. *)
Fixpoint nodupb (s : list Cell) : bool :=
  match s with
  | [] => true
  | c :: s' => negb (cell_in c s') && nodupb s'
  end.

(** A generator whose every draw is 0, and the game it constructs. *)
Definition zero_rng : Rng := mkRng (fun _ => 0) 0.

Definition game0 : SnakeGame :=
  mkGame [(260, 200); (280, 200); (300, 200)] (Some (0, 0)) Right 0
         false false.

(** [game0] once started; once started and turned Up; and a started game
    with the food on the cell above the head. *)
Definition game_started : SnakeGame :=
  mkGame [(260, 200); (280, 200); (300, 200)] (Some (0, 0)) Right 0
         false true.

Definition game_up : SnakeGame :=
  mkGame [(260, 200); (280, 200); (300, 200)] (Some (0, 0)) Up 0
         false true.

Definition game_food_ahead : SnakeGame :=
  mkGame [(260, 200); (280, 200); (300, 200)] (Some (260, 180)) Up 0
         false true.

(** [game_up] after one tick. *)
Definition game_moved : SnakeGame :=
  mkGame [(260, 180); (260, 200); (280, 200)] (Some (0, 0)) Up 0
         false true.

(** The collision the properties speak of: the new head is outside the
    canvas or on a cell of the snake as it is before the move, head and
    tail included. *)
Definition collides (self : SnakeGame) : Prop :=
  ~ in_bounds (next_head self) \/ In (next_head self) (snake self).

(** Up and Down are vertical, Left and Right horizontal; two directions
    are perpendicular when exactly one of them is vertical. *)
Definition vertical (d : Direction) : bool :=
  match d with
  | Up | Down => true
  | Left | Right => false
  end.

Definition perpendicular (a b : Direction) : bool :=
  xorb (vertical a) (vertical b).

(** What holds of the snake and the food all along a game. *)
Definition well_formed (self : SnakeGame) : Prop :=
  snake self <> [] /\ NoDup (snake self) /\ food_clear self.

(** ** Notions for the further properties of the engine *)

(** [a] is one grid step from [b]: where a head on [b] moves to in some
    direction. *)
Definition adjacent (a b : Cell) : Prop :=
  exists d, a = new_head_of d b.

(** Every segment is one grid step from the next one. *)
Fixpoint chain (s : list Cell) : Prop :=
  match s with
  | a :: (b :: _) as t => adjacent a b /\ chain t
  | _ => True
  end.

(** The head is on the border the direction points at. *)
Definition at_wall (d : Direction) (head : Cell) : Prop :=
  match d with
  | Up => snd head = 0
  | Down => snd head = HEIGHT - GRID_SIZE
  | Left => fst head = 0
  | Right => fst head = WIDTH - GRID_SIZE
  end.

(** What the engine keeps besides [well_formed]: the snake lies on cells of
    the grid, each segment next to its successor; the score is the number
    of segments gained since the reset; the food is a cell of the grid; a
    game that is over is not running and its next head collides. *)
Definition sound (self : SnakeGame) : Prop :=
  well_formed self /\
  Forall grid_cell (snake self) /\
  chain (snake self) /\
  score self = Z.of_nat (length (snake self)) - 3 /\
  (forall c, food self = Some c -> grid_cell c) /\
  (game_over_state self = true ->
   game_running self = false /\
   check_collisions self (next_head self) = true) /\
  (3 <= length (snake self))%nat.

(** [game_started] after its first tick; a started game whose head is in
    the first column and moves Left. *)
Definition game_ended : SnakeGame :=
  mkGame [(260, 200); (280, 200); (300, 200)] (Some (0, 0)) Right 0
         true false.

Definition game_at_left_wall : SnakeGame :=
  mkGame [(0, 200); (20, 200); (40, 200)] (Some (0, 0)) Left 0
         false true.

(** ** The handlers the program binds

    One call of a handler bound in [__init__] (lines 54-59, 62, 69) or of
    the timer callback (line 250): the arrow keys, the key [r] and the
    reset button, the start button, and [game_loop]. *)
Inductive bound_call : SnakeGame -> SnakeGame -> Prop :=
| bound_key d self :
    bound_call self (change_direction d self)
| bound_reset fuel self r self' r' :
    reset_game fuel false self r = Done (self', r') -> bound_call self self'
| bound_start fuel self r self' r' :
    start_game fuel self r = Done (self', r') -> bound_call self self'
| bound_timer fuel self r self' r' :
    game_loop fuel self r = Done (self', r') -> bound_call self self'.

(** The states the program itself goes through. *)
Inductive played : SnakeGame -> Prop :=
| played_init fuel r self r' :
    init fuel r = Done (self, r') -> played self
| played_call self self' :
    played self -> bound_call self self' -> played self'.

(** ** The window: canvas, score label and buttons

    The methods once more, now with the Tkinter calls that write what the
    window shows.  Fonts, outlines, window geometry and the position of the
    two text items are left out, and so is the timer: [after] and
    [after_cancel] schedule calls of [game_loop] and write no state. *)
Module Tk.

#[local] Open Scope string_scope.

(** Colors (lines 12-16). *)
Definition SNAKE_COLOR : String.string := "#00FF00".
Definition FOOD_COLOR : String.string := "#FF0000".
Definition TEXT_COLOR : String.string := "#FFFFFF".
Definition GAME_OVER_COLOR : String.string := "#FFD700".

(** [tk.NORMAL] and [tk.DISABLED]. *)
Inductive WidgetState : Set := NORMAL | DISABLED.

(** An item of the canvas, with its [fill] and its [tags]. *)
Inductive Item : Set :=
| Rectangle (x1 y1 x2 y2 : Z) (fill tags : String.string)
| Oval (x1 y1 x2 y2 : Z) (fill tags : String.string)
| Text (text fill tags : String.string).

Definition tags_of (it : Item) : String.string :=
  match it with
  | Rectangle _ _ _ _ _ t => t
  | Oval _ _ _ _ _ t => t
  | Text _ _ t => t
  end.

(** The game with its widgets; [canvas] lists the items in the order of
    their creation. *)
Record App : Set := mkApp {
  game : SnakeGame;
  canvas : list Item;
  score_label : String.string;
  start_button : WidgetState;
  reset_button : WidgetState
}.

Definition on_game (f : SnakeGame -> SnakeGame) (self : App) : App :=
  mkApp (f (game self)) (canvas self) (score_label self)
        (start_button self) (reset_button self).

Definition with_canvas (c : list Item) (self : App) : App :=
  mkApp (game self) c (score_label self) (start_button self)
        (reset_button self).

Definition with_score_label (t : String.string) (self : App) : App :=
  mkApp (game self) (canvas self) t (start_button self) (reset_button self).

Definition with_start_button (w : WidgetState) (self : App) : App :=
  mkApp (game self) (canvas self) (score_label self) w (reset_button self).

Definition with_reset_button (w : WidgetState) (self : App) : App :=
  mkApp (game self) (canvas self) (score_label self) (start_button self) w.

(** [str(n)] of a Python integer, as the f-strings format the score. *)
Definition str (n : Z) : String.string :=
  DecimalString.NilZero.string_of_int (Z.to_int n).

(** [canvas.delete(tag)]: the items with that tag, all of them for
    ["all"]. *)
Definition canvas_delete (tag : String.string) (c : list Item) : list Item :=
  if String.eqb tag "all"
  then []
  else filter (fun it => negb (String.eqb (tags_of it) tag)) c.

(** The rectangle of a segment and the oval of the food (lines 128, 134). *)
Definition segment_rectangle (c : Cell) : Item :=
  let '(x, y) := c in
  Rectangle x y (x + GRID_SIZE) (y + GRID_SIZE) SNAKE_COLOR "snake".

Definition food_oval (c : Cell) : Item :=
  let '(x, y) := c in
  Oval x y (x + GRID_SIZE) (y + GRID_SIZE) FOOD_COLOR "food".

(** [create_objects] (lines 122-135).  [if self.food:] is true of every
    tuple and false of [None]. *)
Definition create_objects (self : App) : App :=
  let self := with_canvas (canvas_delete "snake" (canvas self)) self in
  let self :=
    fold_left
      (fun self c => with_canvas (canvas self ++ [segment_rectangle c]) self)
      (snake (game self)) self in
  let self := with_canvas (canvas_delete "food" (canvas self)) self in
  match food (game self) with
  | Some c => with_canvas (canvas self ++ [food_oval c]) self
  | None => self
  end.

(** [place_food] (lines 199-210) writes [self.food] only. *)
Definition place_food (fuel : nat) (self : App) (r : Rng)
  : Res (App * Rng) :=
  match place_food fuel (game self) r with
  | Done (g, r') => Done (on_game (fun _ => g) self, r')
  | IndexError => IndexError
  | OutOfFuel => OutOfFuel
  end.

(** [game_over] (lines 230-241). *)
Definition game_over (self : App) : App :=
  let self := on_game (set_game_over_state true) self in
  let self := on_game (set_game_running false) self in
  let self :=
    with_canvas
      (canvas self ++ [Text "GAME OVER!" GAME_OVER_COLOR "game_over_text"])
      self in
  let self :=
    with_canvas
      (canvas self ++
       [Text (String.append "Final Score: " (str (score (game self))))
             TEXT_COLOR "final_score_text"])
      self in
  let self := with_start_button DISABLED self in
  with_reset_button NORMAL self.

(** [move_snake] (lines 137-174). *)
Definition move_snake (fuel : nat) (self : App) (r : Rng)
  : Res (TickExit * App * Rng) :=
  if game_over_state (game self) || negb (game_running (game self))
  then Done (Idle, self, r)
  else
    match snake (game self) with
    | [] => IndexError
    | head :: _ =>
        let new_head := new_head_of (direction (game self)) head in
        if check_collisions (game self) new_head
        then Done (GameOver, game_over self, r)
        else
          let self :=
            on_game (fun g => set_snake (appendleft new_head (snake g)) g)
                    self in
          if is_food new_head (food (game self))
          then
            let self := on_game (fun g => set_score (score g + 1) g) self in
            let self :=
              with_score_label
                (String.append "Score: " (str (score (game self)))) self in
            match place_food fuel self r with
            | Done (self, r') => Done (Ate, create_objects self, r')
            | IndexError => IndexError
            | OutOfFuel => OutOfFuel
            end
          else
            match pop (snake (game self)) with
            | Some s =>
                Done (Moved, create_objects (on_game (set_snake s) self), r)
            | None => IndexError
            end
    end.

(** [change_direction] (lines 212-228) writes [self.direction] only. *)
Definition change_direction (new_direction : Direction) (self : App) : App :=
  on_game (change_direction new_direction) self.

(** [reset_game] (lines 81-109). *)
Definition reset_game (fuel : nat) (initial_setup : bool) (self : App)
  (r : Rng) : Res (App * Rng) :=
  let self :=
    if game_running (game self) && negb initial_setup
    then on_game (set_game_running false) self
    else self in
  let self := with_canvas (canvas_delete "all" (canvas self)) self in
  let self := on_game (set_snake []) self in
  let self := on_game (set_food None) self in
  let head_x := (WIDTH / 2 / GRID_SIZE) * GRID_SIZE in
  let head_y := (HEIGHT / 2 / GRID_SIZE) * GRID_SIZE in
  let self :=
    fold_left
      (fun self i =>
         on_game
           (fun g =>
              set_snake
                (appendleft (head_x - Z.of_nat i * GRID_SIZE, head_y)
                            (snake g)) g)
           self)
      (seq 0 3) self in
  let self := on_game (set_direction Right) self in
  let self := on_game (set_score 0) self in
  let self :=
    with_score_label (String.append "Score: " (str (score (game self))))
                     self in
  let self := on_game (set_game_over_state false) self in
  match place_food fuel self r with
  | Done (self, r') =>
      let self := create_objects self in
      let self := with_start_button NORMAL self in
      let self :=
        with_reset_button
          (if negb (game_running (game self)) then DISABLED else NORMAL)
          self in
      Done (self, r')
  | IndexError => IndexError
  | OutOfFuel => OutOfFuel
  end.

(** [game_loop] (lines 243-254). *)
Definition game_loop (fuel : nat) (self : App) (r : Rng)
  : Res (App * Rng) :=
  if negb (game_over_state (game self)) && game_running (game self)
  then
    match move_snake fuel self r with
    | Done (_, self', r') => Done (self', r')
    | IndexError => IndexError
    | OutOfFuel => OutOfFuel
    end
  else Done (self, r).

(** [start_game] (lines 111-120). *)
Definition start_game (fuel : nat) (self : App) (r : Rng)
  : Res (App * Rng) :=
  if negb (game_running (game self))
  then
    let self := on_game (set_game_running true) self in
    let self := on_game (set_game_over_state false) self in
    let self := with_start_button DISABLED self in
    let self := with_reset_button NORMAL self in
    game_loop fuel self r
  else Done (self, r).

(** [__init__] (lines 19-78): an empty canvas, the label, the two buttons
    with the reset button disabled, the state variables, then
    [reset_game(initial_setup=True)]. *)
Definition init (fuel : nat) (r : Rng) : Res (App * Rng) :=
  reset_game fuel true (mkApp fresh_fields [] "Score: 0" NORMAL DISABLED) r.

(** What the user does, and the timer.  A button that is disabled does not
    call its command. *)
Inductive Event : Set :=
| KeyLeft | KeyRight | KeyUp | KeyDown | KeyR
| ClickStart | ClickReset | TimerFires.

Definition handle (ev : Event) (fuel : nat) (self : App) (r : Rng)
  : Res (App * Rng) :=
  match ev with
  | KeyLeft => Done (change_direction Left self, r)
  | KeyRight => Done (change_direction Right self, r)
  | KeyUp => Done (change_direction Up self, r)
  | KeyDown => Done (change_direction Down self, r)
  | KeyR => reset_game fuel false self r
  | ClickStart =>
      match start_button self with
      | NORMAL => start_game fuel self r
      | DISABLED => Done (self, r)
      end
  | ClickReset =>
      match reset_button self with
      | NORMAL => reset_game fuel false self r
      | DISABLED => Done (self, r)
      end
  | TimerFires => game_loop fuel self r
  end.

(** The items of the canvas that carry a tag. *)
Definition tagged (tag : String.string) (c : list Item) : list Item :=
  filter (fun it => String.eqb (tags_of it) tag) c.

(** The canvas shows the game: the items tagged [snake] are the rectangles
    of the segments, in the order of the deque, the items tagged [food] are
    the oval of the food alone, and the label reads the score. *)
Definition display_ok (self : App) : Prop :=
  tagged "snake" (canvas self) = map segment_rectangle (snake (game self)) /\
  tagged "food" (canvas self) =
    match food (game self) with
    | Some c => [food_oval c]
    | None => []
    end /\
  score_label self = String.append "Score: " (str (score (game self))).

(** The buttons follow the flags: one can start exactly when the game is
    neither running nor over, and the reset button is enabled exactly
    otherwise. *)
Definition buttons_ok (self : App) : Prop :=
  (start_button self = NORMAL <->
   game_running (game self) = false /\
   game_over_state (game self) = false) /\
  (reset_button self = NORMAL <->
   game_running (game self) = true \/ game_over_state (game self) = true).

(** The banner is on the canvas exactly when the game is over, once, with
    the score of the game. *)
Definition banner_ok (self : App) : Prop :=
  tagged "game_over_text" (canvas self) =
    (if game_over_state (game self)
     then [Text "GAME OVER!" GAME_OVER_COLOR "game_over_text"]
     else []) /\
  tagged "final_score_text" (canvas self) =
    (if game_over_state (game self)
     then [Text (String.append "Final Score: " (str (score (game self))))
                TEXT_COLOR "final_score_text"]
     else []).

(** The canvas after a redraw of game [g] on canvas [c]. *)
Definition redrawn (g : SnakeGame) (c : list Item) : list Item :=
  canvas_delete "food"
    (canvas_delete "snake" c ++ map segment_rectangle (snake g)) ++
  match food g with
  | Some f => [food_oval f]
  | None => []
  end.



(** The window the constructor builds on the draws of [zero_rng], and the
    same once started. *)
Definition app0 : App :=
  mkApp game0
        [Rectangle 260 200 280 220 SNAKE_COLOR "snake";
         Rectangle 280 200 300 220 SNAKE_COLOR "snake";
         Rectangle 300 200 320 220 SNAKE_COLOR "snake";
         Oval 0 0 20 20 FOOD_COLOR "food"]
        "Score: 0" NORMAL DISABLED.

End Tk.

(** * Properties *)

(** ** Tuples, membership, deque *)

Lemma cell_eqb_eq (a b : Cell) : cell_eqb a b = true <-> a = b.
Proof.
  destruct a as [ax ay], b as [bx by_]; unfold cell_eqb; simpl.
  rewrite andb_true_iff, !Z.eqb_eq.
  split; [intros [-> ->]; reflexivity | intros H; inversion H; auto].
Qed.

Lemma cell_in_In (c : Cell) (s : list Cell) : cell_in c s = true <-> In c s.
Proof.
  unfold cell_in; rewrite existsb_exists; split.
  - intros (x & Hx & E); apply cell_eqb_eq in E; subst; assumption.
  - intros H; exists c; split; [assumption | apply cell_eqb_eq; reflexivity].
Qed.

Lemma cell_in_false (c : Cell) (s : list Cell) :
  cell_in c s = false <-> ~ In c s.
Proof.
  rewrite <- cell_in_In; destruct (cell_in c s); split; congruence.
Qed.

Lemma is_food_Some (c : Cell) (f : option Cell) :
  is_food c f = true <-> f = Some c.
Proof.
  destruct f as [c'|]; simpl; [rewrite cell_eqb_eq | ]; split; congruence.
Qed.

Lemma is_food_false (c : Cell) (f : option Cell) :
  is_food c f = false <-> f <> Some c.
Proof.
  rewrite <- is_food_Some; destruct (is_food c f); split; congruence.
Qed.

Lemma In_removelast (c : Cell) (s : list Cell) :
  In c (removelast s) -> In c s.
Proof.
  induction s as [|a [|b s] IH]; simpl; auto.
  intros [E | H]; [left; assumption | right; apply IH; assumption].
Qed.

Lemma NoDup_removelast (s : list Cell) : NoDup s -> NoDup (removelast s).
Proof.
  induction s as [|a [|b s] IH]; intros H; simpl; auto.
  - constructor.
  - inversion H as [|? ? Hin Hnd]; subst.
    constructor; [ | apply IH; assumption].
    intros Hc; apply Hin, In_removelast; assumption.
Qed.

Lemma length_removelast_cons (a : Cell) (s : list Cell) :
  length (removelast (a :: s)) = length s.
Proof.
  revert a; induction s as [|b s IH]; intros a; [reflexivity | ].
  change (removelast (a :: b :: s)) with (a :: removelast (b :: s)).
  cbn [length]; rewrite IH; reflexivity.
Qed.

(** ** The new head and the collision test *)

Lemma new_head_of_neq (d : Direction) (h : Cell) : new_head_of d h <> h.
Proof.
  destruct h as [x y], d; unfold new_head_of, GRID_SIZE; intros E;
    inversion E; lia.
Qed.

Lemma in_bounds_dec (c : Cell) :
  (0 <=? fst c) && (fst c <? WIDTH) && (0 <=? snd c) && (snd c <? HEIGHT)
  = true <-> in_bounds c.
Proof.
  unfold in_bounds; rewrite !andb_true_iff, !Z.leb_le, !Z.ltb_lt; tauto.
Qed.

Lemma check_collisions_true (self : SnakeGame) (c : Cell) :
  check_collisions self c = true <->
  ~ in_bounds c \/ In c (tl (snake self)).
Proof.
  unfold check_collisions; destruct c as [x y].
  pose proof (in_bounds_dec (x, y)) as B; simpl fst in B; simpl snd in B.
  destruct ((0 <=? x) && (x <? WIDTH) && (0 <=? y) && (y <? HEIGHT)); simpl.
  - destruct (cell_in (x, y) (tl (snake self))) eqn:E.
    + apply cell_in_In in E; tauto.
    + apply cell_in_false in E; split; [discriminate | ].
      intros [H | H]; [exfalso; apply H, B; reflexivity | contradiction].
  - split; [intros _; left; intros H; apply B in H; discriminate | reflexivity].
Qed.

(** On a snake that has a head, the test on the segments after the head
    decides the collision with the whole snake: the new head is never the
    head itself. *)
Lemma check_collisions_collides (self : SnakeGame) :
  snake self <> [] ->
  check_collisions self (next_head self) = true <-> collides self.
Proof.
  intros Hne; rewrite check_collisions_true; unfold collides, next_head.
  destruct (snake self) as [|h t]; [contradiction | simpl].
  split; intros [H | H]; auto.
  destruct H as [E | H]; [ | auto].
  exfalso; exact (new_head_of_neq _ _ (eq_sym E)).
Qed.

Lemma check_collisions_false (self : SnakeGame) :
  snake self <> [] ->
  check_collisions self (next_head self) = false <-> ~ collides self.
Proof.
  intros Hne; rewrite <- (check_collisions_collides self Hne).
  destruct (check_collisions self (next_head self)); split; congruence.
Qed.

(** ** The loop of [place_food] *)

Lemma place_food_step (fuel : nat) (self : SnakeGame) (r : Rng) :
  place_food (S fuel) self r =
  if cell_in (candidate r 0) (snake self)
  then place_food fuel self (skip 1 r)
  else Done (set_food (Some (candidate r 0)) self, skip 1 r).
Proof.
  change (place_food (S fuel) self r) with
    (if negb (cell_in (candidate r 0) (snake self))
     then Done (set_food (Some (candidate r 0)) self, skip 1 r)
     else place_food fuel self (skip 1 r)).
  destruct (cell_in (candidate r 0) (snake self)); reflexivity.
Qed.

Lemma candidate_skip (r : Rng) (k : nat) :
  candidate (skip 1 r) k = candidate r (S k).
Proof.
  unfold candidate, skip; cbn [draws cursor].
  assert (E : (2 * k + (2 * 1 + cursor r) = 2 * S k + cursor r)%nat) by lia.
  rewrite E; reflexivity.
Qed.

Lemma skip_skip (r : Rng) (k : nat) : skip k (skip 1 r) = skip (S k) r.
Proof.
  unfold skip; cbn [draws cursor]; f_equal; lia.
Qed.

Lemma candidate_grid_cell (r : Rng) (k : nat) : grid_cell (candidate r k).
Proof.
  unfold grid_cell, in_bounds, candidate; cbn [fst snd].
  change (WIDTH / GRID_SIZE) with 30; change (HEIGHT / GRID_SIZE) with 20.
  unfold WIDTH, HEIGHT, GRID_SIZE.
  set (a := draws r (2 * k + cursor r)%nat mod 30).
  set (b := draws r (S (2 * k + cursor r)) mod 20).
  assert (Ha : 0 <= a < 30) by (apply Z.mod_pos_bound; lia).
  assert (Hb : 0 <= b < 20) by (apply Z.mod_pos_bound; lia).
  rewrite !Z.mod_mul by discriminate; lia.
Qed.

(** The loop comes back exactly at the first draw that is off the snake. *)
Lemma place_food_first_free (self : SnakeGame) (k : nat) :
  forall (r : Rng) (fuel : nat),
    (forall j, (j < k)%nat -> In (candidate r j) (snake self)) ->
    ~ In (candidate r k) (snake self) ->
    (k < fuel)%nat ->
    place_food fuel self r =
    Done (set_food (Some (candidate r k)) self, skip (S k) r).
Proof.
  induction k as [|k IH]; intros r fuel Hbefore Hfree Hfuel;
    (destruct fuel as [|fuel]; [lia | ]); rewrite place_food_step.
  - apply cell_in_false in Hfree; rewrite Hfree; reflexivity.
  - assert (H0 : cell_in (candidate r 0) (snake self) = true)
      by (apply cell_in_In, Hbefore; lia).
    rewrite H0, (IH (skip 1 r) fuel).
    + rewrite candidate_skip, skip_skip; reflexivity.
    + intros j Hj; rewrite candidate_skip; apply Hbefore; lia.
    + rewrite candidate_skip; assumption.
    + lia.
Qed.

Lemma place_food_inv (self : SnakeGame) (fuel : nat) :
  forall (r : Rng) (self' : SnakeGame) (r' : Rng),
    place_food fuel self r = Done (self', r') ->
    exists k, (k < fuel)%nat /\
      (forall j, (j < k)%nat -> In (candidate r j) (snake self)) /\
      ~ In (candidate r k) (snake self) /\
      self' = set_food (Some (candidate r k)) self /\ r' = skip (S k) r.
Proof.
  induction fuel as [|fuel IH]; intros r self' r' H; [discriminate | ].
  rewrite place_food_step in H.
  destruct (cell_in (candidate r 0) (snake self)) eqn:E.
  - destruct (IH _ _ _ H) as (k & Hk & Hb & Hf & -> & ->).
    exists (S k); rewrite candidate_skip in Hf.
    rewrite candidate_skip, skip_skip.
    repeat split; auto; [lia | ].
    intros [|j] Hj; [apply cell_in_In; assumption | ].
    rewrite <- candidate_skip; apply Hb; lia.
  - inversion H; subst; exists 0%nat; apply cell_in_false in E.
    repeat split; auto; [lia | intros j Hj; lia].
Qed.

(** Some draw off the snake is enough for the loop to come back. *)
Lemma place_food_progress (self : SnakeGame) (k : nat) :
  forall (r : Rng) (fuel : nat),
    ~ In (candidate r k) (snake self) ->
    (k < fuel)%nat ->
    exists self' r', place_food fuel self r = Done (self', r').
Proof.
  induction k as [|k IH]; intros r fuel Hfree Hfuel;
    (destruct fuel as [|fuel]; [lia | ]); rewrite place_food_step;
    destruct (cell_in (candidate r 0) (snake self)) eqn:E; eauto.
  - apply cell_in_false in Hfree; congruence.
  - apply IH; [rewrite candidate_skip; assumption | lia].
Qed.

(** What a returned [place_food] has done. *)
Lemma place_food_sound (fuel : nat) (self : SnakeGame) (r : Rng)
  (self' : SnakeGame) (r' : Rng) :
  place_food fuel self r = Done (self', r') ->
  exists c, self' = set_food (Some c) self /\ grid_cell c /\
            ~ In c (snake self).
Proof.
  intros H; destruct (place_food_inv _ _ _ _ _ H) as (k & _ & _ & Hf & -> & _).
  exists (candidate r k); auto using candidate_grid_cell.
Qed.

(** ** The snake on every cell *)

Lemma full_snake_covers (i j : nat) :
  (i < 30)%nat -> (j < 20)%nat ->
  In (Z.of_nat i * GRID_SIZE, Z.of_nat j * GRID_SIZE) full_snake.
Proof.
  intros Hi Hj; unfold full_snake; apply in_flat_map.
  exists j; split; [apply in_seq; change (Z.to_nat (HEIGHT / GRID_SIZE)) with 20%nat; lia | ].
  assert (Hin : In (Z.of_nat i * GRID_SIZE, Z.of_nat j * GRID_SIZE)
                  (map (fun x => (Z.of_nat x * GRID_SIZE, Z.of_nat j * GRID_SIZE))
                       (seq 0 (Z.to_nat (WIDTH / GRID_SIZE))))).
  { apply in_map_iff; exists i; split; [reflexivity | ].
    apply in_seq; change (Z.to_nat (WIDTH / GRID_SIZE)) with 30%nat; lia. }
  unfold full_row; destruct (Nat.even j); [assumption | ].
  apply in_rev; rewrite rev_involutive; assumption.
Qed.

Lemma candidate_on_full_snake (r : Rng) (k : nat) :
  In (candidate r k) full_snake.
Proof.
  unfold candidate.
  change (WIDTH / GRID_SIZE) with 30; change (HEIGHT / GRID_SIZE) with 20.
  set (a := draws r (2 * k + cursor r)%nat mod 30).
  set (b := draws r (S (2 * k + cursor r)) mod 20).
  assert (Ha : 0 <= a < 30) by (apply Z.mod_pos_bound; lia).
  assert (Hb : 0 <= b < 20) by (apply Z.mod_pos_bound; lia).
  rewrite <- (Z2Nat.id a), <- (Z2Nat.id b) by lia.
  apply full_snake_covers; lia.
Qed.

Lemma place_food_full_snake (fuel : nat) (self : SnakeGame) :
  snake self = full_snake ->
  forall r, place_food fuel self r = OutOfFuel.
Proof.
  intros Hs; induction fuel as [|fuel IH]; intros r; [reflexivity | ].
  rewrite place_food_step, Hs.
  assert (E : cell_in (candidate r 0) full_snake = true)
    by apply cell_in_In, candidate_on_full_snake.
  rewrite E; apply IH.
Qed.

Lemma nodupb_NoDup (s : list Cell) : nodupb s = true -> NoDup s.
Proof.
  induction s as [|c s IH]; simpl; intros H; [constructor | ].
  apply andb_true_iff in H; destruct H as [H1 H2].
  constructor; [ | apply IH; assumption].
  apply cell_in_false; destruct (cell_in c s); [discriminate | reflexivity].
Qed.

(** ** The four exits of [move_snake] *)

Lemma not_playing_flags (self : SnakeGame) :
  game_over_state self = true \/ game_running self = false <->
  game_over_state self || negb (game_running self) = true.
Proof.
  destruct (game_over_state self), (game_running self); simpl;
    intuition congruence.
Qed.

Lemma playing_flags (self : SnakeGame) :
  playing self <-> game_over_state self || negb (game_running self) = false.
Proof.
  unfold playing; destruct (game_over_state self), (game_running self);
    simpl; intuition congruence.
Qed.

Lemma move_snake_idle (fuel : nat) (self : SnakeGame) (r : Rng) :
  game_over_state self = true \/ game_running self = false ->
  move_snake fuel self r = Done (Idle, self, r).
Proof.
  intros H; apply not_playing_flags in H; unfold move_snake; rewrite H.
  reflexivity.
Qed.

Lemma move_snake_collision (fuel : nat) (self : SnakeGame) (r : Rng) :
  playing self -> snake self <> [] ->
  check_collisions self (next_head self) = true ->
  move_snake fuel self r = Done (GameOver, game_over self, r).
Proof.
  intros Hp Hne Hc; apply playing_flags in Hp.
  unfold move_snake, next_head in *; rewrite Hp.
  destruct (snake self) as [|h t]; [contradiction | simpl in Hc].
  rewrite Hc; reflexivity.
Qed.

Lemma move_snake_moved (fuel : nat) (self : SnakeGame) (r : Rng) :
  playing self -> snake self <> [] ->
  check_collisions self (next_head self) = false ->
  food self <> Some (next_head self) ->
  move_snake fuel self r =
  Done (Moved,
        set_snake (removelast (next_head self :: snake self)) self, r).
Proof.
  intros Hp Hne Hc Hf; apply playing_flags in Hp; apply is_food_false in Hf.
  unfold move_snake, next_head in *; rewrite Hp.
  destruct (snake self) as [|h t]; [contradiction | simpl in Hc, Hf].
  rewrite Hc; cbn [food set_snake]; rewrite Hf; reflexivity.
Qed.

Lemma move_snake_ate (fuel : nat) (self : SnakeGame) (r : Rng) :
  playing self -> snake self <> [] ->
  check_collisions self (next_head self) = false ->
  food self = Some (next_head self) ->
  move_snake fuel self r =
  match
    place_food fuel
      (set_score (score self + 1)
                 (set_snake (next_head self :: snake self) self)) r
  with
  | Done (self', r') => Done (Ate, self', r')
  | IndexError => IndexError
  | OutOfFuel => OutOfFuel
  end.
Proof.
  intros Hp Hne Hc Hf; apply playing_flags in Hp; apply is_food_Some in Hf.
  unfold move_snake, next_head in *; rewrite Hp.
  destruct (snake self) as [|h t]; [contradiction | simpl in Hc, Hf].
  rewrite Hc; cbn [food set_snake]; rewrite Hf; reflexivity.
Qed.

(** Every returned call left through one of the four exits. *)
Lemma move_snake_cases (fuel : nat) (self : SnakeGame) (r : Rng)
  (e : TickExit) (self' : SnakeGame) (r' : Rng) :
  move_snake fuel self r = Done (e, self', r') ->
  (e = Idle /\ ~ playing self /\ self' = self /\ r' = r) \/
  (playing self /\ snake self <> [] /\
   ((e = GameOver /\ check_collisions self (next_head self) = true /\
     self' = game_over self /\ r' = r) \/
    (e = Moved /\ check_collisions self (next_head self) = false /\
     food self <> Some (next_head self) /\
     self' = set_snake (removelast (next_head self :: snake self)) self /\
     r' = r) \/
    (e = Ate /\ check_collisions self (next_head self) = false /\
     food self = Some (next_head self) /\
     place_food fuel
       (set_score (score self + 1)
                  (set_snake (next_head self :: snake self) self)) r
     = Done (self', r')))).
Proof.
  intros H.
  destruct (game_over_state self || negb (game_running self)) eqn:Hfl.
  - left; apply not_playing_flags in Hfl.
    rewrite (move_snake_idle fuel self r Hfl) in H; inversion H; subst.
    repeat split; auto.
    intros [H1 H2]; destruct Hfl; congruence.
  - right; apply playing_flags in Hfl.
    assert (Hne : snake self <> []).
    { intros E; apply playing_flags in Hfl; unfold move_snake in H.
      rewrite Hfl, E in H; discriminate. }
    split; [assumption | split; [assumption | ]].
    destruct (check_collisions self (next_head self)) eqn:Hc.
    + rewrite (move_snake_collision fuel self r Hfl Hne Hc) in H.
      inversion H; subst; left; auto.
    + destruct (is_food (next_head self) (food self)) eqn:Hf.
      * apply is_food_Some in Hf.
        rewrite (move_snake_ate fuel self r Hfl Hne Hc Hf) in H.
        right; right.
        destruct (place_food fuel _ r) as [[s3 r3]| | ]; try discriminate.
        inversion H; subst; auto.
      * apply is_food_false in Hf.
        rewrite (move_snake_moved fuel self r Hfl Hne Hc Hf) in H.
        inversion H; subst; right; left; auto.
Qed.

(** ** What [reset_game] builds *)

Lemma reset_game_inv (fuel : nat) (initial_setup : bool) (self : SnakeGame)
  (r : Rng) (self' : SnakeGame) (r' : Rng) :
  reset_game fuel initial_setup self r = Done (self', r') ->
  exists c,
    grid_cell c /\ ~ In c [left_of 2 center; left_of 1 center; center] /\
    self' =
    mkGame [left_of 2 center; left_of 1 center; center] (Some c) Right 0 false
           (if game_running self && negb initial_setup
            then false else game_running self).
Proof.
  unfold reset_game; intros H.
  apply place_food_sound in H; destruct H as (c & -> & Hg & Hn).
  exists c; split; [assumption | split; [exact Hn | ]].
  destruct (game_running self && negb initial_setup); reflexivity.
Qed.

Lemma reset_game_well_formed (fuel : nat) (initial_setup : bool)
  (self : SnakeGame) (r : Rng) (self' : SnakeGame) (r' : Rng) :
  reset_game fuel initial_setup self r = Done (self', r') ->
  well_formed self'.
Proof.
  intros H; apply reset_game_inv in H; destruct H as (c & _ & Hn & ->).
  split; [discriminate | split].
  - apply nodupb_NoDup; reflexivity.
  - exists c; split; [reflexivity | exact Hn].
Qed.

(** ** The snake and the food along a game *)

Lemma move_snake_well_formed (fuel : nat) (self : SnakeGame) (r : Rng)
  (e : TickExit) (self' : SnakeGame) (r' : Rng) :
  well_formed self ->
  move_snake fuel self r = Done (e, self', r') ->
  well_formed self'.
Proof.
  intros (Hne & Hnd & c & Hfood & Hc) H.
  apply move_snake_cases in H.
  destruct H as [(_ & _ & -> & _) | (Hp & _ & H)].
  { split; [assumption | split; [assumption | exists c; auto]]. }
  destruct H as [(_ & _ & -> & _) | [(_ & Hcol & Hf & -> & _) | (_ & Hcol & Hf & H)]].
  - split; [assumption | split; [assumption | exists c; auto]].
  - apply (check_collisions_false self Hne) in Hcol.
    assert (Hin : ~ In (next_head self) (snake self))
      by (intros Hin; apply Hcol; right; assumption).
    unfold well_formed; cbn [snake set_snake food].
    split; [ | split].
    + destruct (snake self) as [|h t]; [contradiction | discriminate].
    + apply NoDup_removelast; constructor; assumption.
    + exists c; split; [assumption | ].
      intros Hc'; apply In_removelast in Hc'; destruct Hc' as [E | Hc'].
      * apply Hf; rewrite Hfood, E; reflexivity.
      * contradiction.
  - apply (check_collisions_false self Hne) in Hcol.
    assert (Hin : ~ In (next_head self) (snake self))
      by (intros Hin; apply Hcol; right; assumption).
    apply place_food_sound in H; destruct H as (c' & -> & _ & Hc').
    unfold well_formed; cbn [snake set_snake set_score set_food food] in *.
    split; [discriminate | split; [constructor; assumption | ]].
    exists c'; auto.
Qed.

Lemma game_loop_well_formed (fuel : nat) (self : SnakeGame) (r : Rng)
  (self' : SnakeGame) (r' : Rng) :
  well_formed self ->
  game_loop fuel self r = Done (self', r') ->
  well_formed self'.
Proof.
  intros Hwf H; unfold game_loop in H.
  destruct (negb (game_over_state self) && game_running self).
  - destruct (move_snake fuel self r) as [[[e s1] r1]| | ] eqn:E;
      try discriminate.
    inversion H; subst; eapply move_snake_well_formed; eassumption.
  - inversion H; subst; assumption.
Qed.

Lemma change_direction_fields (d : Direction) (self : SnakeGame) :
  change_direction d self = self \/
  change_direction d self = set_direction d self.
Proof.
  unfold change_direction.
  repeat match goal with
         | |- context [if ?b then _ else _] => destruct b
         end; auto.
Qed.

Lemma call_well_formed (self self' : SnakeGame) :
  well_formed self -> call self self' -> well_formed self'.
Proof.
  intros Hwf Hc; destruct Hc as
    [fuel self r self' r' H | fuel self r self' r' H | self H | d self
    | fuel self r e self' r' H | fuel self r self' r' H].
  - eapply reset_game_well_formed; eassumption.
  - unfold start_game in H; destruct (negb (game_running self)).
    + eapply game_loop_well_formed; [ | eassumption]; exact Hwf.
    + inversion H; subst; assumption.
  - exact Hwf.
  - destruct (change_direction_fields d self) as [-> | ->]; exact Hwf.
  - eapply move_snake_well_formed; eassumption.
  - eapply game_loop_well_formed; eassumption.
Qed.

Lemma reachable_well_formed (self : SnakeGame) :
  reachable self -> well_formed self.
Proof.
  induction 1 as [fuel r self r' H | self self' _ IH Hc].
  - unfold init in H; eapply reset_game_well_formed; exact H.
  - eapply call_well_formed; eassumption.
Qed.

Lemma flags_kept_not_ended (self self' : SnakeGame) :
  playing self ->
  game_over_state self' = game_over_state self ->
  game_running self' = game_running self ->
  ~ ended self'.
Proof.
  intros [H1 H2] E1 E2 [H3 H4]; congruence.
Qed.

Lemma reachable_game0 : reachable game0.
Proof.
  apply (reach_init 1 zero_rng game0 (skip 1 zero_rng)); reflexivity.
Qed.

Lemma reachable_game_moved : reachable game_moved.
Proof.
  apply (reach_call game_up).
  - apply (reach_call game_started).
    + apply (reach_call game0); [exact reachable_game0 | ].
      exact (call_set_started game0 eq_refl).
    + exact (call_change_direction Up game_started).
  - apply (call_move_snake 0 game_up zero_rng Moved game_moved zero_rng).
    reflexivity.
Qed.

(** * The claims *)

(** C1 (what the code does): [reset_game] leaves direction Right, score 0,
    the game not over and, called as the handlers call it, not running; the
    snake it builds is three horizontally consecutive cells, but the first
    element of the deque, which [move_snake] takes for the head, is the cell
    two steps to the left of the center, and the center is the last one. *)
Theorem reset_game_head_left_of_center
  (fuel : nat) (initial_setup : bool) (self : SnakeGame) (r : Rng)
  (self' : SnakeGame) (r' : Rng) :
  reset_game fuel initial_setup self r = Done (self', r') ->
  snake self' = [left_of 2 center; left_of 1 center; center] /\
  hd (0, 0) (snake self') = (260, 200) /\
  center = (300, 200) /\
  hd (0, 0) (snake self') <> center /\
  direction self' = Right /\ score self' = 0 /\
  game_over_state self' = false /\
  (initial_setup = false -> game_running self' = false).
Proof.
  intros H; apply reset_game_inv in H; destruct H as (c & _ & _ & ->).
  cbn [snake direction score game_over_state game_running hd].
  repeat split; try reflexivity; try discriminate.
  intros ->; destruct (game_running self); reflexivity.
Qed.

Lemma reset_game_head_left_of_center_witness :
  reset_game 1 true fresh_fields zero_rng = Done (game0, skip 1 zero_rng) /\
  hd (0, 0) (snake game0) <> center.
Proof.
  split; [reflexivity | ].
  apply (reset_game_head_left_of_center 1 true fresh_fields zero_rng
           game0 (skip 1 zero_rng)); reflexivity.
Defined.

(** C2: from the state [reset_game] produces, starting and one tick end the
    game.  The new head, one step Right of the first cell of the deque, is
    the second cell of the deque and inside the canvas, so [move_snake]
    leaves through the collision exit with the game over, not running, the
    score 0 and the snake as it was.  [start_game] makes that first tick
    itself, through [game_loop], and a tick after it is idle. *)
Theorem first_tick_after_reset_ends_game
  (fuel : nat) (initial_setup : bool) (self : SnakeGame) (r : Rng)
  (self1 : SnakeGame) (r1 : Rng) (fuel' : nat) (r2 : Rng) :
  (initial_setup = true -> game_running self = false) ->
  reset_game fuel initial_setup self r = Done (self1, r1) ->
  let started := set_started self1 in
  let final := game_over started in
  next_head started = nth 1 (snake started) (0, 0) /\
  in_bounds (next_head started) /\
  move_snake fuel' started r2 = Done (GameOver, final, r2) /\
  start_game fuel' self1 r2 = Done (final, r2) /\
  move_snake fuel' final r2 = Done (Idle, final, r2) /\
  ended final /\ score final = 0 /\ snake final = snake self1 /\
  food final = food self1.
Proof.
  intros Hrun H; apply reset_game_inv in H; destruct H as (c & _ & _ & ->).
  assert (E : (if game_running self && negb initial_setup
               then false else game_running self) = false).
  { destruct initial_setup; [rewrite Hrun by reflexivity; reflexivity | ].
    destruct (game_running self); reflexivity. }
  rewrite E; cbv zeta.
  repeat split; try reflexivity; try (unfold WIDTH, HEIGHT; simpl; lia).
Qed.

Lemma first_tick_after_reset_ends_game_witness :
  move_snake 1 (set_started game0) zero_rng =
  Done (GameOver, game_over (set_started game0), zero_rng).
Proof.
  apply (first_tick_after_reset_ends_game 1 true fresh_fields zero_rng
           game0 (skip 1 zero_rng) 1%nat zero_rng);
    [reflexivity | reflexivity].
Defined.

(** C8: a tick that detects a collision sets the game over and not
    running, and leaves the snake, the food, the score (and the direction)
    as they were; it draws nothing from the generator. *)
Theorem collision_freezes_state (fuel : nat) (self : SnakeGame) (r : Rng) :
  playing self -> snake self <> [] ->
  check_collisions self (next_head self) = true ->
  move_snake fuel self r =
  Done (GameOver,
        mkGame (snake self) (food self) (direction self) (score self)
               true false,
        r).
Proof.
  intros Hp Hne Hc; rewrite (move_snake_collision fuel self r Hp Hne Hc).
  reflexivity.
Qed.

Lemma collision_freezes_state_witness :
  move_snake 1 game_started zero_rng =
  Done (GameOver,
        mkGame [(260, 200); (280, 200); (300, 200)] (Some (0, 0)) Right 0
               true false,
        zero_rng).
Proof.
  apply (collision_freezes_state 1 game_started zero_rng).
  - split; reflexivity.
  - discriminate.
  - reflexivity.
Defined.

(** C10: when the game is over or not running, a tick leaves through the
    idle exit with every state variable, and the generator, unchanged. *)
Theorem idle_tick_is_noop (fuel : nat) (self : SnakeGame) (r : Rng) :
  game_over_state self = true \/ game_running self = false ->
  move_snake fuel self r = Done (Idle, self, r).
Proof.
  exact (move_snake_idle fuel self r).
Qed.

Lemma idle_tick_is_noop_witness :
  move_snake 0 game0 zero_rng = Done (Idle, game0, zero_rng).
Proof.
  apply (idle_tick_is_noop 0 game0 zero_rng); right; reflexivity.
Defined.

(** C7: while the game is played, a request for the exact opposite of the
    current direction changes nothing, and a request for the current
    direction or one perpendicular to it sets the direction and nothing
    else; when the game is over or not running, no request changes the
    state. *)
Theorem change_direction_law (d : Direction) (self : SnakeGame) :
  (playing self -> d = opposite (direction self) ->
   change_direction d self = self) /\
  (playing self ->
   d = direction self \/ perpendicular d (direction self) = true ->
   change_direction d self = set_direction d self /\
   direction (change_direction d self) = d) /\
  (game_over_state self = true \/ game_running self = false ->
   change_direction d self = self).
Proof.
  assert (Hset : playing self ->
            d = direction self \/ perpendicular d (direction self) = true ->
            change_direction d self = set_direction d self).
  { intros Hp Hd; apply playing_flags in Hp.
    unfold change_direction; rewrite Hp.
    destruct Hd as [-> | Hd]; [destruct (direction self); reflexivity | ].
    destruct d, (direction self); try discriminate Hd; reflexivity. }
  split; [ | split].
  - intros Hp ->; apply playing_flags in Hp.
    unfold change_direction; rewrite Hp.
    destruct (direction self); reflexivity.
  - intros Hp Hd; rewrite (Hset Hp Hd); split; reflexivity.
  - intros H; apply not_playing_flags in H.
    unfold change_direction; rewrite H; reflexivity.
Qed.

Lemma change_direction_law_witness :
  change_direction Left game_started = game_started /\
  direction (change_direction Up game_started) = Up /\
  change_direction Up game0 = game0.
Proof.
  assert (Hp : playing game_started) by (split; reflexivity).
  split; [ | split].
  - apply (proj1 (change_direction_law Left game_started) Hp); reflexivity.
  - apply (proj1 (proj2 (change_direction_law Up game_started)) Hp).
    right; reflexivity.
  - apply (proj2 (proj2 (change_direction_law Up game0))).
    right; reflexivity.
Defined.

(** C3: for a tick taken while the game is played, the game ends on that
    tick exactly when the new head is outside the canvas or on a cell of the
    snake as it is before the move, head and tail included; such a tick
    always returns.  In particular the snake collides when it moves Right
    with its head in the last column, and when the new head is the cell of
    the tail. *)
Theorem tick_ends_game_iff_collision (self : SnakeGame) :
  playing self -> snake self <> [] ->
  (forall fuel r,
     collides self ->
     move_snake fuel self r = Done (GameOver, game_over self, r) /\
     ended (game_over self)) /\
  (forall fuel r e self' r',
     move_snake fuel self r = Done (e, self', r') ->
     (ended self' <-> collides self)) /\
  (direction self = Right ->
   fst (hd (0, 0) (snake self)) = WIDTH - GRID_SIZE ->
   forall fuel r,
     move_snake fuel self r = Done (GameOver, game_over self, r)) /\
  (next_head self = last (snake self) (0, 0) ->
   forall fuel r,
     move_snake fuel self r = Done (GameOver, game_over self, r)).
Proof.
  intros Hp Hne.
  assert (Hcol : forall fuel r, collides self ->
            move_snake fuel self r = Done (GameOver, game_over self, r)).
  { intros fuel r Hc; apply move_snake_collision; auto.
    apply check_collisions_collides; assumption. }
  split; [ | split; [ | split]].
  - intros fuel r Hc; split; [auto | split; reflexivity].
  - intros fuel r e self' r' H; apply move_snake_cases in H.
    destruct H as [(_ & Hnp & _) | (_ & _ & H)]; [contradiction | ].
    destruct H as
      [(_ & Hc & -> & _) | [(_ & Hc & _ & -> & _) | (_ & Hc & _ & H)]].
    + apply (check_collisions_collides self Hne) in Hc.
      split; [intros _; assumption | intros _; split; reflexivity].
    + apply (check_collisions_false self Hne) in Hc.
      split; [intros He | contradiction].
      exfalso; revert He; apply (flags_kept_not_ended self); auto.
    + apply (check_collisions_false self Hne) in Hc.
      apply place_food_sound in H; destruct H as (c & -> & _).
      split; [intros He | contradiction].
      exfalso; revert He; apply (flags_kept_not_ended self); auto.
  - intros Hd Hx fuel r; apply Hcol.
    left; unfold next_head, in_bounds; rewrite Hd.
    destruct (snake self) as [|[x y] t]; [contradiction | ].
    simpl in *; unfold WIDTH, GRID_SIZE in *; lia.
  - intros E fuel r; apply Hcol; right; rewrite E.
    destruct (exists_last Hne) as (l & a & ->).
    rewrite last_last; apply in_or_app; right; left; reflexivity.
Qed.

Lemma tick_ends_game_iff_collision_witness :
  move_snake 1 game_started zero_rng =
  Done (GameOver, game_over game_started, zero_rng) /\
  ended (game_over game_started).
Proof.
  assert (Hp : playing game_started) by (split; reflexivity).
  assert (Hne : snake game_started <> []) by discriminate.
  apply (proj1 (tick_ends_game_iff_collision game_started Hp Hne)).
  right; simpl; auto.
Defined.

(** C4: for a tick taken while the game is played that does not collide:
    when the new head is not the food, the tick returns with the score and
    the length of the snake unchanged; when it is the food, every returned
    tick has the score and the length one higher, and the tick returns as
    soon as a draw of [place_food] is off the grown snake.  So for a
    returned tick, score and length are both one higher exactly when the
    new head is the food the state had before the tick. *)
Theorem growth_law (self : SnakeGame) :
  playing self -> snake self <> [] -> ~ collides self ->
  (food self <> Some (next_head self) ->
   forall fuel r,
   exists self',
     move_snake fuel self r = Done (Moved, self', r) /\
     score self' = score self /\
     length (snake self') = length (snake self)) /\
  (food self = Some (next_head self) ->
   forall fuel r e self' r',
     move_snake fuel self r = Done (e, self', r') ->
     e = Ate /\ score self' = score self + 1 /\
     length (snake self') = S (length (snake self))) /\
  (food self = Some (next_head self) ->
   forall r k fuel,
     ~ In (candidate r k) (next_head self :: snake self) ->
     (k < fuel)%nat ->
     exists self' r', move_snake fuel self r = Done (Ate, self', r')) /\
  (forall fuel r e self' r',
     move_snake fuel self r = Done (e, self', r') ->
     (score self' = score self + 1 /\
      length (snake self') = S (length (snake self)) <->
      food self = Some (next_head self))).
Proof.
  intros Hp Hne Hnc.
  apply (check_collisions_false self Hne) in Hnc.
  assert (Hmoved : food self <> Some (next_head self) ->
    forall fuel r, exists self',
      move_snake fuel self r = Done (Moved, self', r) /\
      score self' = score self /\
      length (snake self') = length (snake self)).
  { intros Hf fuel r; eexists; split;
      [apply move_snake_moved; assumption | ].
    cbn [score snake set_snake]; split; [reflexivity | ].
    apply length_removelast_cons. }
  assert (Hate : food self = Some (next_head self) ->
    forall fuel r e self' r',
      move_snake fuel self r = Done (e, self', r') ->
      e = Ate /\ score self' = score self + 1 /\
      length (snake self') = S (length (snake self))).
  { intros Hf fuel r e self' r' H.
    rewrite (move_snake_ate fuel self r Hp Hne Hnc Hf) in H.
    destruct (place_food fuel _ r) as [[s3 r3]| | ] eqn:E; try discriminate.
    inversion H; subst; apply place_food_sound in E.
    destruct E as (c & -> & _); repeat split; reflexivity. }
  split; [exact Hmoved | split; [exact Hate | split]].
  - intros Hf r k fuel Hfree Hk.
    rewrite (move_snake_ate fuel self r Hp Hne Hnc Hf).
    destruct (place_food_progress
                (set_score (score self + 1)
                           (set_snake (next_head self :: snake self) self))
                k r fuel Hfree Hk) as (s3 & r3 & ->).
    eauto.
  - intros fuel r e self' r' H; split.
    + intros [Hs Hl].
      destruct (is_food (next_head self) (food self)) eqn:Hf;
        [apply is_food_Some; assumption | apply is_food_false in Hf].
      destruct (Hmoved Hf fuel r) as (s' & E & Hs' & _).
      rewrite E in H; inversion H; subst; lia.
    + intros Hf; destruct (Hate Hf fuel r e self' r' H) as (_ & Hs & Hl).
      split; assumption.
Qed.

Lemma growth_law_witness :
  (exists self',
     move_snake 0 game_up zero_rng = Done (Moved, self', zero_rng) /\
     score self' = score game_up /\
     length (snake self') = length (snake game_up)) /\
  (exists self' r',
     move_snake 1 game_food_ahead zero_rng = Done (Ate, self', r')).
Proof.
  split.
  - assert (Hp : playing game_up) by (split; reflexivity).
    assert (Hne : snake game_up <> []) by discriminate.
    assert (Hnc : ~ collides game_up).
    { intros [H | H]; [apply H; unfold in_bounds, WIDTH, HEIGHT; simpl; lia | ].
      simpl in H.
      destruct H as [H | [H | [H | []]]]; discriminate H. }
    apply (proj1 (growth_law game_up Hp Hne Hnc)); discriminate.
  - assert (Hp : playing game_food_ahead) by (split; reflexivity).
    assert (Hne : snake game_food_ahead <> []) by discriminate.
    assert (Hnc : ~ collides game_food_ahead).
    { intros [H | H]; [apply H; unfold in_bounds, WIDTH, HEIGHT; simpl; lia | ].
      simpl in H.
      destruct H as [H | [H | [H | []]]]; discriminate H. }
    apply (proj1 (proj2 (proj2 (growth_law game_food_ahead Hp Hne Hnc)))
             eq_refl zero_rng 0%nat 1%nat); [ | lia].
    intros H; vm_compute in H.
    destruct H as [H | [H | [H | [H | []]]]]; discriminate H.
Defined.

(** C5: in every state of a game the food is off the snake, and so it is
    after every tick and after every reset made from such a state. *)
Theorem food_never_on_snake (self : SnakeGame) :
  reachable self ->
  food_clear self /\
  (forall fuel r e self' r',
     move_snake fuel self r = Done (e, self', r') -> food_clear self') /\
  (forall fuel r self' r',
     reset_game fuel false self r = Done (self', r') -> food_clear self').
Proof.
  intros Hr; apply reachable_well_formed in Hr.
  split; [apply Hr | split].
  - intros fuel r e self' r' H.
    apply (move_snake_well_formed fuel self r e self' r' Hr H).
  - intros fuel r self' r' H.
    apply (reset_game_well_formed fuel false self r self' r' H).
Qed.

Lemma food_never_on_snake_witness : food_clear game_moved.
Proof.
  apply (food_never_on_snake game_moved reachable_game_moved).
Defined.

(** C6: in every state reached from the constructor's reset by any
    sequence of resets, starts, direction requests and ticks, the deque of
    the snake holds no cell twice. *)
Theorem snake_has_no_duplicates (self : SnakeGame) :
  reachable self -> NoDup (snake self).
Proof.
  intros Hr; apply reachable_well_formed in Hr; apply Hr.
Qed.

Lemma snake_has_no_duplicates_witness : NoDup (snake game_moved).
Proof.
  apply (snake_has_no_duplicates game_moved reachable_game_moved).
Defined.

(** C9 (as the code has it): [place_food] draws grid cells until one is off
    the snake.  Whenever it returns, it has set the food, and nothing else,
    to a cell of the grid inside the canvas that no segment of the snake
    occupies; it returns as soon as some draw is off the snake, with the
    first such draw as the food. *)
Theorem place_food_first_free_draw (self : SnakeGame) (r : Rng) :
  (forall fuel self' r',
     place_food fuel self r = Done (self', r') ->
     exists c, self' = set_food (Some c) self /\ grid_cell c /\
               ~ In c (snake self)) /\
  (forall k fuel,
     ~ In (candidate r k) (snake self) -> (k < fuel)%nat ->
     exists self' r', place_food fuel self r = Done (self', r')) /\
  (forall k fuel,
     (forall j, (j < k)%nat -> In (candidate r j) (snake self)) ->
     ~ In (candidate r k) (snake self) -> (k < fuel)%nat ->
     place_food fuel self r =
     Done (set_food (Some (candidate r k)) self, skip (S k) r)).
Proof.
  split; [ | split].
  - intros fuel self' r'; apply place_food_sound.
  - intros k fuel; apply place_food_progress.
  - intros k fuel; apply place_food_first_free.
Qed.

Lemma place_food_first_free_draw_witness :
  exists self' r', place_food 1 game_started zero_rng = Done (self', r').
Proof.
  apply (proj1 (proj2 (place_food_first_free_draw game_started zero_rng))
           0%nat 1%nat); [ | lia].
  simpl; intros [H | [H | [H | []]]]; discriminate H.
Defined.

(** C9 (as stated) fails: the snake that lies on every cell of the grid is
    duplicate-free and on grid cells only, and on it [place_food] never
    comes back, whatever the generator draws. *)
Lemma place_food_loops_on_full_snake :
  NoDup full_snake /\ length full_snake = 600%nat /\
  ~ place_food_terminates full_game.
Proof.
  split; [apply nodupb_NoDup; vm_compute; reflexivity | ].
  split; [vm_compute; reflexivity | ].
  intros H; destruct (H zero_rng) as (fuel & res & E).
  rewrite (place_food_full_snake fuel full_game eq_refl zero_rng) in E.
  discriminate E.
Qed.

(** * Further properties of the engine *)

(** ** Helpers *)

Lemma place_food_no_index_error (fuel : nat) (self : SnakeGame) (r : Rng) :
  place_food fuel self r <> IndexError.
Proof.
  revert r; induction fuel as [|fuel IH]; intros r; [discriminate | ].
  rewrite place_food_step.
  destruct (cell_in (candidate r 0) (snake self)); [apply IH | discriminate].
Qed.

Lemma new_head_grid_cell (d : Direction) (h : Cell) :
  grid_cell h -> in_bounds (new_head_of d h) -> grid_cell (new_head_of d h).
Proof.
  intros (_ & Hx & Hy) Hb; split; [assumption | ].
  clear Hb; destruct h as [x y], d; unfold new_head_of, GRID_SIZE in *;
    cbn [fst snd] in *; split; Z.to_euclidean_division_equations; lia.
Qed.

Lemma new_head_back (d : Direction) (c : Cell) :
  new_head_of (opposite d) (new_head_of d c) = c.
Proof.
  destruct c as [x y], d; unfold new_head_of, opposite; f_equal; lia.
Qed.

Lemma chain_removelast (s : list Cell) : chain s -> chain (removelast s).
Proof.
  induction s as [|a [|b [|c s]] IH]; intros H; try exact I.
  destruct H as [Hab Hc]; split; [exact Hab | exact (IH Hc)].
Qed.

Lemma Forall_removelast (P : Cell -> Prop) (s : list Cell) :
  Forall P s -> Forall P (removelast s).
Proof.
  intros H; apply Forall_forall; intros c Hc.
  apply In_removelast in Hc; revert c Hc; apply Forall_forall; exact H.
Qed.

Lemma grid_cell_on_full_snake (c : Cell) : grid_cell c -> In c full_snake.
Proof.
  destruct c as [x y]; unfold grid_cell, in_bounds, WIDTH, HEIGHT, GRID_SIZE.
  cbn [fst snd]; intros ((Hx & Hy) & Mx & My).
  assert (Dx : x / 20 * 20 = x /\ 0 <= x / 20 < 30)
    by (Z.to_euclidean_division_equations; lia).
  assert (Dy : y / 20 * 20 = y /\ 0 <= y / 20 < 20)
    by (Z.to_euclidean_division_equations; lia).
  assert (Ex : x = Z.of_nat (Z.to_nat (x / 20)) * GRID_SIZE)
    by (unfold GRID_SIZE; rewrite Z2Nat.id; lia).
  assert (Ey : y = Z.of_nat (Z.to_nat (y / 20)) * GRID_SIZE)
    by (unfold GRID_SIZE; rewrite Z2Nat.id; lia).
  rewrite Ex, Ey; apply full_snake_covers; lia.
Qed.

Lemma change_direction_cases (d : Direction) (self : SnakeGame) :
  change_direction d self = self \/
  (playing self /\ change_direction d self = set_direction d self).
Proof.
  unfold change_direction.
  destruct (game_over_state self || negb (game_running self)) eqn:E;
    [left; reflexivity | apply playing_flags in E].
  repeat match goal with
         | |- context [if ?b then _ else _] => destruct b
         end; auto.
Qed.

Lemma no_collision_in_bounds (self : SnakeGame) :
  check_collisions self (next_head self) = false ->
  in_bounds (next_head self).
Proof.
  intros Hc; apply in_bounds_dec.
  destruct ((0 <=? fst (next_head self)) && (fst (next_head self) <? WIDTH) &&
            (0 <=? snd (next_head self)) && (snd (next_head self) <? HEIGHT))
    eqn:E; [reflexivity | ].
  assert (Ht : check_collisions self (next_head self) = true).
  { apply check_collisions_true; left; intros Hb.
    apply in_bounds_dec in Hb; congruence. }
  congruence.
Qed.

(** ** [sound] along a game *)

Lemma reset_game_sound (fuel : nat) (initial_setup : bool) (self : SnakeGame)
  (r : Rng) (self' : SnakeGame) (r' : Rng) :
  reset_game fuel initial_setup self r = Done (self', r') -> sound self'.
Proof.
  intros H; pose proof (reset_game_well_formed _ _ _ _ _ _ H) as Hwf.
  apply reset_game_inv in H; destruct H as (c & Hg & _ & ->).
  split; [exact Hwf | ].
  cbn [snake food score game_over_state game_running].
  split; [ | split; [ | split; [reflexivity | split; [ | split]]]].
  - repeat constructor; unfold in_bounds, WIDTH, HEIGHT; simpl; lia.
  - split; [exists Left; reflexivity | ].
    split; [exists Left; reflexivity | exact I].
  - intros c' E; inversion E; subst; exact Hg.
  - discriminate.
  - cbn [length]; lia.
Qed.

Lemma move_snake_sound (fuel : nat) (self : SnakeGame) (r : Rng)
  (e : TickExit) (self' : SnakeGame) (r' : Rng) :
  sound self ->
  move_snake fuel self r = Done (e, self', r') ->
  sound self'.
Proof.
  intros (Hwf & Hgrid & Hch & Hsc & Hfd & Hov & Hlen) H.
  pose proof (move_snake_well_formed _ _ _ _ _ _ Hwf H) as Hwf'.
  split; [exact Hwf' | clear Hwf'].
  apply move_snake_cases in H.
  destruct H as [(_ & _ & -> & _) | ((Hrun & Hnov) & Hne & H)];
    [repeat (split; [assumption | ]); assumption | ].
  assert (Hnew : check_collisions self (next_head self) = false ->
                 grid_cell (next_head self) /\
                 chain (next_head self :: snake self)).
  { intros Hc; pose proof (no_collision_in_bounds self Hc) as Hb.
    unfold next_head in *.
    destruct (snake self) as [|h t]; [contradiction | cbn [hd] in *].
    split; [apply new_head_grid_cell; [inversion Hgrid | ]; assumption | ].
    split; [exists (direction self); reflexivity | exact Hch]. }
  destruct H as
    [(_ & Hc & -> & _) | [(_ & Hc & _ & -> & _) | (_ & Hc & Hf & H)]].
  - split; [exact Hgrid | split; [exact Hch | split; [exact Hsc | ]]].
    split; [exact Hfd | split; [ | exact Hlen]].
    intros _; split; [reflexivity | exact Hc].
  - destruct (Hnew Hc) as [Hg Hc'].
    cbn [snake food score game_over_state game_running set_snake].
    split; [apply Forall_removelast; constructor; assumption | ].
    split; [apply chain_removelast; exact Hc' | ].
    split; [rewrite length_removelast_cons; exact Hsc | ].
    split; [exact Hfd | split; [congruence | ]].
    rewrite length_removelast_cons; exact Hlen.
  - destruct (Hnew Hc) as [Hg Hc'].
    destruct (place_food_sound _ _ _ _ _ H) as (c & -> & Hgc & _).
    cbn [snake food score game_over_state game_running set_snake set_score
         set_food].
    split; [constructor; assumption | ].
    split; [exact Hc' | ].
    split; [cbn [length]; lia | ].
    split; [intros c' E; inversion E; subst; exact Hgc | ].
    split; [congruence | cbn [length]; lia].
Qed.

Lemma game_loop_sound (fuel : nat) (self : SnakeGame) (r : Rng)
  (self' : SnakeGame) (r' : Rng) :
  sound self ->
  game_loop fuel self r = Done (self', r') ->
  sound self'.
Proof.
  intros Hs H; unfold game_loop in H.
  destruct (negb (game_over_state self) && game_running self).
  - destruct (move_snake fuel self r) as [[[e s1] r1]| | ] eqn:E;
      try discriminate.
    inversion H; subst; eapply move_snake_sound; eassumption.
  - inversion H; subst; assumption.
Qed.

Lemma set_started_sound (self : SnakeGame) :
  sound self -> sound (set_started self).
Proof.
  intros (Hwf & Hgrid & Hch & Hsc & Hfd & _ & Hlen).
  split; [exact Hwf | split; [exact Hgrid | split; [exact Hch | ]]].
  split; [exact Hsc | split; [exact Hfd | split; [discriminate | exact Hlen]]].
Qed.

Lemma call_sound (self self' : SnakeGame) :
  sound self -> call self self' -> sound self'.
Proof.
  intros Hs Hc; destruct Hc as
    [fuel self r self' r' H | fuel self r self' r' H | self H | d self
    | fuel self r e self' r' H | fuel self r self' r' H].
  - eapply reset_game_sound; eassumption.
  - unfold start_game in H; destruct (negb (game_running self)).
    + eapply game_loop_sound; [ | eassumption].
      apply set_started_sound; exact Hs.
    + inversion H; subst; assumption.
  - apply set_started_sound; exact Hs.
  - destruct (change_direction_cases d self) as [-> | [[_ Hnov] ->]];
      [exact Hs | ].
    destruct Hs as (Hwf & Hgrid & Hch & Hsc & Hfd & _ & Hlen).
    split; [exact Hwf | split; [exact Hgrid | split; [exact Hch | ]]].
    split; [exact Hsc | split; [exact Hfd | split; [ | exact Hlen]]].
    cbn [game_over_state set_direction]; congruence.
  - eapply move_snake_sound; eassumption.
  - eapply game_loop_sound; eassumption.
Qed.

Lemma reachable_sound (self : SnakeGame) : reachable self -> sound self.
Proof.
  induction 1 as [fuel r self r' H | self self' _ IH Hc].
  - unfold init in H; eapply reset_game_sound; exact H.
  - eapply call_sound; eassumption.
Qed.

Lemma reachable_game_ended : reachable game_ended.
Proof.
  apply (reach_call game0); [exact reachable_game0 | ].
  apply (call_start 0 game0 zero_rng game_ended zero_rng); reflexivity.
Qed.

(** ** The snake on the grid *)

(** X1: all along a game every segment of the snake, and the food, is a
    cell of the grid: inside the canvas and aligned on [GRID_SIZE]. *)
Theorem snake_stays_on_grid (self : SnakeGame) :
  reachable self ->
  Forall grid_cell (snake self) /\
  (exists c, food self = Some c /\ grid_cell c).
Proof.
  intros H; apply reachable_sound in H.
  destruct H as ((_ & _ & c & Hf & _) & Hgrid & _ & _ & Hfd & _).
  split; [exact Hgrid | exists c; auto].
Qed.

Lemma snake_stays_on_grid_witness : Forall grid_cell (snake game_moved).
Proof.
  apply (snake_stays_on_grid game_moved reachable_game_moved).
Defined.

(** X2: all along a game the snake is connected: each segment is exactly
    one grid step, in one of the four directions, from the next one. *)
Theorem snake_is_connected (self : SnakeGame) :
  reachable self -> chain (snake self).
Proof.
  intros H; apply reachable_sound in H; apply H.
Qed.

Lemma snake_is_connected_witness : chain (snake game_moved).
Proof.
  apply (snake_is_connected game_moved reachable_game_moved).
Defined.

(** X3: all along a game the score is the number of segments the snake
    gained since the reset: its length minus the three it starts with. *)
Theorem score_counts_growth (self : SnakeGame) :
  reachable self -> score self = Z.of_nat (length (snake self)) - 3.
Proof.
  intros H; apply reachable_sound in H; apply H.
Qed.

Lemma score_counts_growth_witness :
  score game_moved = Z.of_nat (length (snake game_moved)) - 3.
Proof.
  apply (score_counts_growth game_moved reachable_game_moved).
Defined.

(** X4: all along a game the snake has at least its three first segments
    and at most the 600 cells of the grid, so the score stays within
    0..597. *)
Theorem snake_fits_the_grid (self : SnakeGame) :
  reachable self ->
  (3 <= length (snake self) <= 600)%nat /\ 0 <= score self <= 597.
Proof.
  intros H; apply reachable_sound in H.
  destruct H as ((_ & Hnd & _) & Hgrid & _ & Hsc & _ & _ & Hlen).
  assert (Hmax : (length (snake self) <= length full_snake)%nat).
  { apply NoDup_incl_length; [exact Hnd | ].
    intros c Hc; apply grid_cell_on_full_snake.
    revert c Hc; apply Forall_forall; exact Hgrid. }
  assert (E : length full_snake = 600%nat) by (vm_compute; reflexivity).
  rewrite E in Hmax; lia.
Qed.

Lemma snake_fits_the_grid_witness :
  (3 <= length (snake game_moved) <= 600)%nat /\
  0 <= score game_moved <= 597.
Proof.
  apply (snake_fits_the_grid game_moved reachable_game_moved).
Defined.

(** ** Errors *)

(** X5: all along a game no tick raises: [move_snake], [game_loop] and
    [start_game] never end in [IndexError], because the deque is never
    empty there.  The guard is the constructor's reset: a tick of a played
    game on an empty deque does raise, at [self.snake[0]]. *)
Theorem tick_never_raises :
  (forall self, reachable self ->
     forall fuel r,
       move_snake fuel self r <> IndexError /\
       game_loop fuel self r <> IndexError /\
       start_game fuel self r <> IndexError) /\
  (forall self fuel r,
     playing self -> snake self = [] ->
     move_snake fuel self r = IndexError).
Proof.
  assert (Hmove : forall self, snake self <> [] ->
            forall fuel r, move_snake fuel self r <> IndexError).
  { intros self Hne fuel r; unfold move_snake.
    destruct (game_over_state self || negb (game_running self));
      [discriminate | ].
    destruct (snake self) as [|h t] eqn:Es; [contradiction | ].
    destruct (check_collisions self _); [discriminate | ].
    destruct (is_food _ _); [ | discriminate].
    pose proof (place_food_no_index_error fuel
      (set_score
         (score (set_snake (appendleft (new_head_of (direction self) h)
                                       (h :: t)) self) + 1)
         (set_snake (appendleft (new_head_of (direction self) h) (h :: t))
                    self)) r) as Hp.
    destruct (place_food fuel _ r) as [[s3 r3]| | ];
      [discriminate | contradiction | discriminate]. }
  assert (Hloop : forall self, snake self <> [] ->
            forall fuel r, game_loop fuel self r <> IndexError).
  { intros self Hne fuel r; unfold game_loop.
    destruct (negb (game_over_state self) && game_running self);
      [ | discriminate].
    pose proof (Hmove self Hne fuel r) as Hm.
    destruct (move_snake fuel self r) as [[[e s1] r1]| | ];
      [discriminate | contradiction | discriminate]. }
  split.
  - intros self Hr fuel r; apply reachable_sound in Hr.
    destruct Hr as ((Hne & _) & _).
    split; [apply Hmove; exact Hne | split; [apply Hloop; exact Hne | ]].
    unfold start_game; destruct (negb (game_running self));
      [apply Hloop; exact Hne | discriminate].
  - intros self fuel r Hp Hs; apply playing_flags in Hp.
    unfold move_snake; rewrite Hp, Hs; reflexivity.
Qed.

Lemma tick_never_raises_witness :
  move_snake 1 game_moved zero_rng <> IndexError /\
  move_snake 1 (set_started fresh_fields) zero_rng = IndexError.
Proof.
  split.
  - apply (proj1 tick_never_raises game_moved reachable_game_moved
             1%nat zero_rng).
  - apply (proj2 tick_never_raises (set_started fresh_fields) 1%nat zero_rng);
      [split; reflexivity | reflexivity].
Defined.

(** ** Game over, reset, turns and walls *)

(** X6: a game that is over stays as it is until it is reset.  It is not
    running, its next head still collides, and so [start_game] does not
    resume it: the tick it makes through [game_loop] collides again and
    leaves the very same state.  [game_loop] and every direction request
    leave it unchanged as well. *)
Theorem game_over_is_final (self : SnakeGame) :
  reachable self -> game_over_state self = true ->
  game_running self = false /\
  collides self /\
  (forall fuel r, start_game fuel self r = Done (self, r)) /\
  (forall fuel r, game_loop fuel self r = Done (self, r)) /\
  (forall d, change_direction d self = self).
Proof.
  intros Hr Hov; apply reachable_sound in Hr.
  destruct Hr as ((Hne & _) & _ & _ & _ & _ & Hfin & _).
  destruct (Hfin Hov) as [Hrun Hc].
  split; [exact Hrun | split; [ | split; [ | split]]].
  - apply check_collisions_collides; assumption.
  - intros fuel r; unfold start_game, game_loop; rewrite Hrun.
    cbn [negb game_over_state game_running set_started set_game_over_state
         set_game_running andb].
    rewrite (move_snake_collision fuel (set_started self) r);
      [ | split; reflexivity | exact Hne | exact Hc].
    destruct self as [s f d n o g]; cbn in Hov, Hrun; subst; reflexivity.
  - intros fuel r; unfold game_loop; rewrite Hov; reflexivity.
  - intros d; unfold change_direction; rewrite Hov; reflexivity.
Qed.

Lemma game_over_is_final_witness :
  start_game 1 game_ended zero_rng = Done (game_ended, zero_rng).
Proof.
  apply (game_over_is_final game_ended reachable_game_ended eq_refl).
Defined.



(** X8: the reversal guard of [change_direction] looks at the direction
    variable, not at the last move: two requests before the next tick, a
    perpendicular one and then the opposite of the direction the snake came
    in, do reverse the direction.  On a snake whose head came from its
    second segment the next tick then runs into that segment (or a wall)
    and ends the game. *)
Theorem double_turn_reverses
  (self : SnakeGame) (p : Direction) (second : Cell) (rest : list Cell) :
  playing self ->
  perpendicular p (direction self) = true ->
  snake self = new_head_of (direction self) second :: second :: rest ->
  let turned :=
    change_direction (opposite (direction self)) (change_direction p self) in
  turned = set_direction (opposite (direction self)) self /\
  next_head turned = second /\
  forall fuel r,
    move_snake fuel turned r = Done (GameOver, game_over turned, r).
Proof.
  intros Hp Hperp Hs turned.
  assert (Et : turned = set_direction (opposite (direction self)) self).
  { subst turned; apply playing_flags in Hp.
    unfold change_direction; rewrite Hp.
    destruct self as [s f d n o g]; cbn in *.
    destruct p, d; try discriminate Hperp; cbn; rewrite Hp; reflexivity. }
  assert (En : next_head turned = second).
  { rewrite Et; unfold next_head; cbn [snake direction set_direction].
    rewrite Hs; cbn [hd]; apply new_head_back. }
  split; [exact Et | split; [exact En | ]].
  intros fuel r; apply move_snake_collision.
  - rewrite Et; exact Hp.
  - rewrite Et; cbn [snake set_direction]; rewrite Hs; discriminate.
  - apply check_collisions_true; right; rewrite En, Et.
    cbn [snake set_direction]; rewrite Hs; left; reflexivity.
Qed.

Lemma double_turn_reverses_witness :
  move_snake 1 (change_direction Down (change_direction Left game_moved))
             zero_rng
  = Done (GameOver,
          game_over (change_direction Down (change_direction Left game_moved)),
          zero_rng).
Proof.
  apply (double_turn_reverses game_moved Left (260, 200) [(280, 200)]).
  - split; reflexivity.
  - reflexivity.
  - reflexivity.
Defined.

(** X9: for a head on a cell of the grid, the new head is outside the
    canvas exactly when the head is on the border the direction points at:
    the first or last column for Left and Right, the first or last row for
    Up and Down.  A tick of a played game there ends the game. *)
Theorem wall_on_every_side (self : SnakeGame) :
  playing self -> snake self <> [] ->
  grid_cell (hd (0, 0) (snake self)) ->
  (at_wall (direction self) (hd (0, 0) (snake self)) <->
   ~ in_bounds (next_head self)) /\
  (at_wall (direction self) (hd (0, 0) (snake self)) ->
   forall fuel r,
     move_snake fuel self r = Done (GameOver, game_over self, r)).
Proof.
  intros Hp Hne Hg.
  assert (Hiff : at_wall (direction self) (hd (0, 0) (snake self)) <->
                 ~ in_bounds (next_head self)).
  { unfold next_head; destruct (hd (0, 0) (snake self)) as [x y].
    destruct Hg as ((Hx & Hy) & Mx & My).
    unfold at_wall, in_bounds, new_head_of, WIDTH, HEIGHT, GRID_SIZE in *.
    cbn [fst snd] in *.
    destruct (direction self); cbn [fst snd];
      Z.to_euclidean_division_equations; lia. }
  split; [exact Hiff | ].
  intros Hw fuel r; apply move_snake_collision; auto.
  apply check_collisions_true; left; apply Hiff; exact Hw.
Qed.

Lemma wall_on_every_side_witness :
  move_snake 1 game_at_left_wall zero_rng =
  Done (GameOver, game_over game_at_left_wall, zero_rng).
Proof.
  assert (Hp : playing game_at_left_wall) by (split; reflexivity).
  assert (Hne : snake game_at_left_wall <> []) by discriminate.
  assert (Hg : grid_cell (hd (0, 0) (snake game_at_left_wall))).
  { unfold grid_cell, in_bounds, WIDTH, HEIGHT; cbn.
    repeat split; try lia; discriminate. }
  apply (proj2 (wall_on_every_side game_at_left_wall Hp Hne Hg)).
  reflexivity.
Defined.

(** ** The program as it is bound *)

Lemma played_game_ended : played game_ended.
Proof.
  apply (played_call game0).
  - apply (played_init 1 zero_rng game0 (skip 1 zero_rng)); reflexivity.
  - apply (bound_start 0 game0 zero_rng game_ended zero_rng); reflexivity.
Qed.

(** X10: through the handlers the program binds (arrow keys, key [r],
    the two buttons, the timer) a game never gets going.  After every
    handler the game is not running, the snake is the three cells of the
    reset, the direction is Right and the score is 0: the tick that
    [start_game] makes runs the head into the second segment. *)
Theorem bound_game_never_runs (self : SnakeGame) :
  played self ->
  game_running self = false /\
  snake self = [left_of 2 center; left_of 1 center; center] /\
  direction self = Right /\ score self = 0.
Proof.
  induction 1 as [fuel r self r' H | self self' _ IH Hc].
  - unfold init in H; apply reset_game_inv in H.
    destruct H as (c & _ & _ & ->); repeat split; reflexivity.
  - destruct IH as (Hrun & Hs & Hd & Hsc).
    destruct Hc as [d self | fuel self r self' r' H | fuel self r self' r' H
                   | fuel self r self' r' H].
    + unfold change_direction; rewrite Hrun, orb_true_r; auto.
    + apply reset_game_inv in H; destruct H as (c & _ & _ & ->).
      rewrite Hrun; repeat split; reflexivity.
    + unfold start_game, game_loop in H; rewrite Hrun in H.
      cbn [negb andb game_over_state game_running set_started
           set_game_over_state set_game_running] in H.
      rewrite (move_snake_collision fuel (set_started self) r) in H.
      * inversion H; subst; cbn; auto.
      * split; reflexivity.
      * cbn [snake set_started set_game_over_state set_game_running].
        rewrite Hs; discriminate.
      * unfold check_collisions, next_head.
        cbn [snake direction set_started set_game_over_state
             set_game_running].
        rewrite Hs, Hd; reflexivity.
    + unfold game_loop in H; rewrite Hrun, andb_false_r in H.
      inversion H; subst; auto.
Qed.

Lemma bound_game_never_runs_witness :
  game_running game_ended = false /\ score game_ended = 0.
Proof.
  destruct (bound_game_never_runs game_ended played_game_ended)
    as (H1 & _ & _ & H2).
  split; assumption.
Defined.

(** * The window *)

(** ** Tags on the canvas *)

Lemma tagged_app (t : String.string) (c c' : list Tk.Item) :
  Tk.tagged t (c ++ c') = Tk.tagged t c ++ Tk.tagged t c'.
Proof.
  unfold Tk.tagged; apply filter_app.
Qed.

Lemma tagged_delete_same (t : String.string) (c : list Tk.Item) :
  Tk.tagged t (Tk.canvas_delete t c) = [].
Proof.
  unfold Tk.tagged, Tk.canvas_delete.
  destruct (String.eqb t "all"); [reflexivity | ].
  induction c as [|a c IH]; [reflexivity | cbn [filter]].
  destruct (String.eqb (Tk.tags_of a) t) eqn:E; cbn [negb filter];
    [exact IH | rewrite E; exact IH].
Qed.

Lemma tagged_delete_other (t t' : String.string) (c : list Tk.Item) :
  t <> t' -> String.eqb t' "all" = false ->
  Tk.tagged t (Tk.canvas_delete t' c) = Tk.tagged t c.
Proof.
  intros Hne Hall; unfold Tk.tagged, Tk.canvas_delete; rewrite Hall.
  induction c as [|a c IH]; [reflexivity | cbn [filter]].
  destruct (String.eqb (Tk.tags_of a) t') eqn:E; cbn [negb filter].
  - apply String.eqb_eq in E.
    assert (E' : String.eqb (Tk.tags_of a) t = false)
      by (apply String.eqb_neq; congruence).
    rewrite E'; exact IH.
  - destruct (String.eqb (Tk.tags_of a) t); [f_equal | ]; exact IH.
Qed.

Lemma tagged_rectangles (t : String.string) (s : list Cell) :
  Tk.tagged t (map Tk.segment_rectangle s) =
  if String.eqb "snake" t then map Tk.segment_rectangle s else [].
Proof.
  induction s as [|[x y] s IH]; [destruct (String.eqb _ t); reflexivity | ].
  unfold Tk.tagged in *; cbn [map filter Tk.segment_rectangle Tk.tags_of].
  rewrite IH; destruct (String.eqb "snake" t); reflexivity.
Qed.

Lemma tagged_food_oval (t : String.string) (c : Cell) :
  Tk.tagged t [Tk.food_oval c] =
  if String.eqb "food" t then [Tk.food_oval c] else [].
Proof.
  destruct c as [x y]; unfold Tk.tagged.
  cbn [filter Tk.food_oval Tk.tags_of].
  destruct (String.eqb "food" t); reflexivity.
Qed.

(** ** [create_objects] *)

Lemma create_rectangles (s : list Cell) :
  forall a,
    fold_left
      (fun self c =>
         Tk.with_canvas (Tk.canvas self ++ [Tk.segment_rectangle c]) self)
      s a
    = Tk.with_canvas (Tk.canvas a ++ map Tk.segment_rectangle s) a.
Proof.
  induction s as [|c s IH]; intros [g cv l sb rb].
  - unfold Tk.with_canvas; cbn; rewrite app_nil_r; reflexivity.
  - cbn [fold_left]; rewrite IH; unfold Tk.with_canvas; cbn.
    rewrite <- app_assoc; reflexivity.
Qed.

Lemma create_objects_eq (a : Tk.App) :
  Tk.create_objects a =
  Tk.with_canvas (Tk.redrawn (Tk.game a) (Tk.canvas a)) a.
Proof.
  unfold Tk.create_objects; rewrite create_rectangles.
  destruct a as [g cv l sb rb]; unfold Tk.redrawn, Tk.with_canvas; cbn.
  destruct (food g); [reflexivity | rewrite app_nil_r; reflexivity].
Qed.

Lemma redrawn_tagged (g : SnakeGame) (c : list Tk.Item) (t : String.string) :
  Tk.tagged t (Tk.redrawn g c) =
  if String.eqb "snake" t then map Tk.segment_rectangle (snake g)
  else if String.eqb "food" t
       then match food g with
            | Some f => [Tk.food_oval f]
            | None => []
            end
       else Tk.tagged t c.
Proof.
  unfold Tk.redrawn; rewrite tagged_app.
  assert (Hoval : Tk.tagged t
                    match food g with
                    | Some f => [Tk.food_oval f]
                    | None => []
                    end
                  = if String.eqb "food" t
                    then match food g with
                         | Some f => [Tk.food_oval f]
                         | None => []
                         end
                    else []).
  { destruct (food g); [apply tagged_food_oval | ].
    destruct (String.eqb "food" t); reflexivity. }
  rewrite Hoval.
  destruct (String.eqb "food" t) eqn:Ef.
  - apply String.eqb_eq in Ef; subst t; rewrite tagged_delete_same.
    reflexivity.
  - assert (Hf : t <> "food")
      by (intros ->; rewrite String.eqb_refl in Ef; discriminate).
    rewrite (tagged_delete_other t "food" _ Hf eq_refl), tagged_app.
    rewrite tagged_rectangles, app_nil_r.
    destruct (String.eqb "snake" t) eqn:Es.
    + apply String.eqb_eq in Es; subst t; rewrite tagged_delete_same.
      reflexivity.
    + assert (Hs : t <> "snake")
        by (intros ->; rewrite String.eqb_refl in Es; discriminate).
      rewrite (tagged_delete_other t "snake" _ Hs eq_refl), app_nil_r.
      reflexivity.
Qed.

(** ** The methods with and without the window *)

Lemma move_snake_window (fuel : nat) (a : Tk.App) (r : Rng) :
  Tk.move_snake fuel a r =
  match move_snake fuel (Tk.game a) r with
  | Done (Idle, _, r') => Done (Idle, a, r')
  | Done (GameOver, _, r') => Done (GameOver, Tk.game_over a, r')
  | Done (Moved, g, r') =>
      Done (Moved, Tk.create_objects (Tk.on_game (fun _ => g) a), r')
  | Done (Ate, g, r') =>
      Done (Ate,
            Tk.create_objects
              (Tk.on_game (fun _ => g)
                 (Tk.with_score_label
                    (String.append "Score: " (Tk.str (score g))) a)),
            r')
  | IndexError => IndexError
  | OutOfFuel => OutOfFuel
  end.
Proof.
  destruct a as [g cv l sb rb]; unfold Tk.move_snake, move_snake.
  cbv beta iota zeta delta
    [Tk.on_game Tk.game Tk.canvas Tk.score_label Tk.start_button
     Tk.reset_button Tk.with_score_label Tk.place_food].
  destruct (game_over_state g || negb (game_running g)); [reflexivity | ].
  destruct (snake g) as [|h t]; [reflexivity | ].
  destruct (check_collisions g (new_head_of (direction g) h));
    [reflexivity | ].
  cbn [food set_snake].
  destruct (is_food (new_head_of (direction g) h) (food g)).
  - destruct (place_food fuel _ r) as [[g3 r3]| | ] eqn:E; try reflexivity.
    apply place_food_sound in E; destruct E as (c & -> & _); reflexivity.
  - reflexivity.
Qed.

Lemma reset_game_window (fuel : nat) (initial_setup : bool) (a : Tk.App)
  (r : Rng) :
  Tk.reset_game fuel initial_setup a r =
  match reset_game fuel initial_setup (Tk.game a) r with
  | Done (g, r') =>
      Done (Tk.mkApp g (Tk.redrawn g []) "Score: 0" Tk.NORMAL
                     (if negb (game_running g)
                      then Tk.DISABLED else Tk.NORMAL),
            r')
  | IndexError => IndexError
  | OutOfFuel => OutOfFuel
  end.
Proof.
  destruct a as [[s f d n o gr] cv l sb rb].
  unfold Tk.reset_game, reset_game, Tk.place_food.
  destruct gr, initial_setup;
    cbv -[place_food Tk.create_objects Tk.redrawn];
    (destruct (place_food fuel _ r) as [[g3 r3]| | ]; [ | reflexivity ..]);
    rewrite create_objects_eq; reflexivity.
Qed.

Lemma tick_frame (fuel : nat) (g : SnakeGame) (r : Rng) (e : TickExit)
  (g' : SnakeGame) (r' : Rng) :
  move_snake fuel g r = Done (e, g', r') ->
  match e with
  | Idle => g' = g
  | GameOver => playing g /\ g' = game_over g
  | Moved =>
      playing g /\ game_running g' = game_running g /\
      game_over_state g' = game_over_state g /\ score g' = score g
  | Ate =>
      playing g /\ game_running g' = game_running g /\
      game_over_state g' = game_over_state g /\ score g' = score g + 1
  end.
Proof.
  intros H; apply move_snake_cases in H.
  destruct H as [(-> & _ & -> & _) | (Hp & _ & H)]; [reflexivity | ].
  destruct H as
    [(-> & _ & -> & _) | [(-> & _ & _ & -> & _) | (-> & _ & _ & H)]].
  - split; [exact Hp | reflexivity].
  - repeat split; apply Hp.
  - apply place_food_sound in H; destruct H as (c & -> & _).
    repeat split; apply Hp.
Qed.



(** ** What the canvas and the label show *)

Lemma display_ext (a b : Tk.App) :
  Tk.canvas b = Tk.canvas a ->
  snake (Tk.game b) = snake (Tk.game a) ->
  food (Tk.game b) = food (Tk.game a) ->
  score (Tk.game b) = score (Tk.game a) ->
  Tk.score_label b = Tk.score_label a ->
  Tk.display_ok a -> Tk.display_ok b.
Proof.
  unfold Tk.display_ok; intros -> -> -> -> ->; auto.
Qed.

Lemma display_redraw (a : Tk.App) :
  Tk.score_label a = String.append "Score: " (Tk.str (score (Tk.game a))) ->
  Tk.display_ok (Tk.create_objects a).
Proof.
  intros Hl; rewrite create_objects_eq; unfold Tk.display_ok.
  cbn [Tk.canvas Tk.game Tk.score_label Tk.with_canvas].
  rewrite !redrawn_tagged; auto.
Qed.

Lemma display_game_over (a : Tk.App) :
  Tk.display_ok a -> Tk.display_ok (Tk.game_over a).
Proof.
  intros (Hs & Hf & Hl); unfold Tk.display_ok, Tk.game_over.
  cbn [Tk.canvas Tk.game Tk.score_label Tk.with_canvas Tk.on_game
       Tk.with_start_button Tk.with_reset_button snake food score
       set_game_over_state set_game_running].
  rewrite !tagged_app, Hs, Hf; cbn [Tk.tagged filter Tk.tags_of].
  rewrite !app_nil_r; auto.
Qed.

Lemma display_move_snake (fuel : nat) (a : Tk.App) (r : Rng) (e : TickExit)
  (a' : Tk.App) (r' : Rng) :
  Tk.display_ok a ->
  Tk.move_snake fuel a r = Done (e, a', r') ->
  Tk.display_ok a'.
Proof.
  intros Hd H; rewrite move_snake_window in H.
  destruct (move_snake fuel (Tk.game a) r) as [[[e0 g'] r0]| | ] eqn:E;
    try discriminate.
  apply tick_frame in E; destruct e0; inversion H; subst.
  - exact Hd.
  - apply display_game_over; exact Hd.
  - apply display_redraw; reflexivity.
  - apply display_redraw; destruct E as (_ & _ & _ & E), Hd as (_ & _ & Hl).
    cbn [Tk.score_label Tk.game Tk.on_game]; rewrite E; exact Hl.
Qed.

Lemma display_game_loop (fuel : nat) (a : Tk.App) (r : Rng)
  (a' : Tk.App) (r' : Rng) :
  Tk.display_ok a ->
  Tk.game_loop fuel a r = Done (a', r') ->
  Tk.display_ok a'.
Proof.
  intros Hd H; unfold Tk.game_loop in H.
  destruct (negb (game_over_state (Tk.game a)) && game_running (Tk.game a)).
  - destruct (Tk.move_snake fuel a r) as [[[e a1] r1]| | ] eqn:E;
      try discriminate.
    inversion H; subst; eapply display_move_snake; eassumption.
  - inversion H; subst; exact Hd.
Qed.

Lemma display_reset_game (fuel : nat) (i : bool) (a : Tk.App) (r : Rng)
  (a' : Tk.App) (r' : Rng) :
  Tk.reset_game fuel i a r = Done (a', r') -> Tk.display_ok a'.
Proof.
  intros H; rewrite reset_game_window in H.
  destruct (reset_game fuel i (Tk.game a) r) as [[g r0]| | ] eqn:E;
    try discriminate.
  apply reset_game_inv in E; destruct E as (c & _ & _ & ->).
  inversion H; subst; unfold Tk.display_ok.
  cbn [Tk.canvas Tk.game Tk.score_label]; rewrite !redrawn_tagged.
  repeat split; reflexivity.
Qed.

(** X12: the window shows the game.  After the constructor and after every
    event handled, the canvas items tagged [snake] are exactly the
    rectangles of the segments, in the order of the deque, the items tagged
    [food] are the one oval of the food, and the label reads the score. *)
Theorem display_follows_game :
  (forall fuel r a r', Tk.init fuel r = Done (a, r') -> Tk.display_ok a) /\
  (forall ev fuel a r a' r',
     Tk.display_ok a ->
     Tk.handle ev fuel a r = Done (a', r') ->
     Tk.display_ok a').
Proof.
  split; [intros fuel r a r'; apply display_reset_game | ].
  intros ev fuel a r a' r' Hd H.
  assert (Hkey : forall d, Tk.display_ok (Tk.change_direction d a)).
  { intros d; unfold Tk.change_direction.
    destruct (change_direction_fields d (Tk.game a)) as [E | E];
      (apply (display_ext a); [reflexivity | | | | reflexivity | exact Hd]);
      cbn [Tk.game Tk.on_game]; rewrite E; reflexivity. }
  destruct ev; cbn [Tk.handle] in H;
    try (inversion H; subst; apply Hkey).
  - eapply display_reset_game; exact H.
  - destruct (Tk.start_button a); [ | inversion H; subst; exact Hd].
    unfold Tk.start_game in H.
    destruct (negb (game_running (Tk.game a)));
      [ | inversion H; subst; exact Hd].
    eapply display_game_loop; [ | exact H].
    apply (display_ext a); try reflexivity; exact Hd.
  - destruct (Tk.reset_button a); [ | inversion H; subst; exact Hd].
    eapply display_reset_game; exact H.
  - eapply display_game_loop; eassumption.
Qed.

Lemma display_follows_game_witness :
  Tk.display_ok (Tk.game_over (Tk.on_game set_started Tk.app0)).
Proof.
  assert (H0 : Tk.display_ok Tk.app0).
  { apply (proj1 display_follows_game 1%nat zero_rng Tk.app0
             (skip 1 zero_rng)); reflexivity. }
  apply (proj2 display_follows_game Tk.ClickStart 0%nat Tk.app0 zero_rng
           _ zero_rng H0); reflexivity.
Defined.

(** ** The buttons *)

Lemma buttons_ext (a b : Tk.App) :
  Tk.start_button b = Tk.start_button a ->
  Tk.reset_button b = Tk.reset_button a ->
  game_running (Tk.game b) = game_running (Tk.game a) ->
  game_over_state (Tk.game b) = game_over_state (Tk.game a) ->
  Tk.buttons_ok a -> Tk.buttons_ok b.
Proof.
  unfold Tk.buttons_ok; intros -> -> -> ->; auto.
Qed.

Lemma buttons_when_started (a : Tk.App) :
  Tk.start_button a = Tk.DISABLED -> Tk.reset_button a = Tk.NORMAL ->
  game_running (Tk.game a) = true \/ game_over_state (Tk.game a) = true ->
  Tk.buttons_ok a.
Proof.
  intros Hs Hr Hf; unfold Tk.buttons_ok; rewrite Hs, Hr; split; split;
    try discriminate; auto.
  intros [H1 H2]; destruct Hf; congruence.
Qed.

Lemma buttons_move_snake (fuel : nat) (a : Tk.App) (r : Rng) (e : TickExit)
  (a' : Tk.App) (r' : Rng) :
  Tk.buttons_ok a ->
  Tk.move_snake fuel a r = Done (e, a', r') ->
  Tk.buttons_ok a'.
Proof.
  intros Hb H; rewrite move_snake_window in H.
  destruct (move_snake fuel (Tk.game a) r) as [[[e0 g'] r0]| | ] eqn:E;
    try discriminate.
  apply tick_frame in E; destruct e0; inversion H; subst.
  - exact Hb.
  - apply buttons_when_started; try reflexivity; right; reflexivity.
  - destruct E as (_ & E1 & E2 & _); rewrite create_objects_eq.
    apply (buttons_ext a); auto.
  - destruct E as (_ & E1 & E2 & _); rewrite create_objects_eq.
    apply (buttons_ext a); auto.
Qed.

Lemma buttons_game_loop (fuel : nat) (a : Tk.App) (r : Rng)
  (a' : Tk.App) (r' : Rng) :
  Tk.buttons_ok a ->
  Tk.game_loop fuel a r = Done (a', r') ->
  Tk.buttons_ok a'.
Proof.
  intros Hb H; unfold Tk.game_loop in H.
  destruct (negb (game_over_state (Tk.game a)) && game_running (Tk.game a)).
  - destruct (Tk.move_snake fuel a r) as [[[e a1] r1]| | ] eqn:E;
      try discriminate.
    inversion H; subst; eapply buttons_move_snake; eassumption.
  - inversion H; subst; exact Hb.
Qed.

Lemma buttons_reset_game (fuel : nat) (i : bool) (a : Tk.App) (r : Rng)
  (a' : Tk.App) (r' : Rng) :
  (i = true -> game_running (Tk.game a) = false) ->
  Tk.reset_game fuel i a r = Done (a', r') -> Tk.buttons_ok a'.
Proof.
  intros Hi H; rewrite reset_game_window in H.
  destruct (reset_game fuel i (Tk.game a) r) as [[g r0]| | ] eqn:E;
    try discriminate.
  apply reset_game_inv in E; destruct E as (c & _ & _ & ->).
  assert (Hrun : (if game_running (Tk.game a) && negb i
                  then false else game_running (Tk.game a)) = false).
  { destruct i; [rewrite Hi by reflexivity; reflexivity | ].
    destruct (game_running (Tk.game a)); reflexivity. }
  inversion H; subst; unfold Tk.buttons_ok.
  cbn [Tk.game Tk.start_button Tk.reset_button game_running game_over_state].
  rewrite Hrun; cbn [negb]; split; split; auto; try discriminate.
  intros [H1 | H1]; discriminate.
Qed.

(** X13: the buttons follow the flags.  After the constructor and after
    every event handled, the start button is enabled exactly when the game
    is neither running nor over, and the reset button exactly when it is
    running or over. *)
Theorem buttons_follow_flags :
  (forall fuel r a r', Tk.init fuel r = Done (a, r') -> Tk.buttons_ok a) /\
  (forall ev fuel a r a' r',
     Tk.buttons_ok a ->
     Tk.handle ev fuel a r = Done (a', r') ->
     Tk.buttons_ok a').
Proof.
  split.
  { intros fuel r a r'; apply buttons_reset_game; reflexivity. }
  intros ev fuel a r a' r' Hb H.
  assert (Hkey : forall d, Tk.buttons_ok (Tk.change_direction d a)).
  { intros d; unfold Tk.change_direction.
    destruct (change_direction_fields d (Tk.game a)) as [E | E];
      (apply (buttons_ext a); [reflexivity | reflexivity | | | exact Hb]);
      cbn [Tk.game Tk.on_game]; rewrite E; reflexivity. }
  destruct ev; cbn [Tk.handle] in H;
    try (inversion H; subst; apply Hkey).
  - apply (buttons_reset_game fuel false a r a' r');
      [intros Hf; discriminate Hf | exact H].
  - destruct (Tk.start_button a); [ | inversion H; subst; exact Hb].
    unfold Tk.start_game in H.
    destruct (negb (game_running (Tk.game a)));
      [ | inversion H; subst; exact Hb].
    eapply buttons_game_loop; [ | exact H].
    apply buttons_when_started; try reflexivity; left; reflexivity.
  - destruct (Tk.reset_button a); [ | inversion H; subst; exact Hb].
    apply (buttons_reset_game fuel false a r a' r');
      [intros Hf; discriminate Hf | exact H].
  - eapply buttons_game_loop; eassumption.
Qed.

Lemma buttons_follow_flags_witness :
  Tk.buttons_ok (Tk.game_over (Tk.on_game set_started Tk.app0)).
Proof.
  assert (H0 : Tk.buttons_ok Tk.app0).
  { apply (proj1 buttons_follow_flags 1%nat zero_rng Tk.app0
             (skip 1 zero_rng)); reflexivity. }
  apply (proj2 buttons_follow_flags Tk.ClickStart 0%nat Tk.app0 zero_rng
           _ zero_rng H0); reflexivity.
Defined.

(** ** The banner *)

Lemma banner_ext (a b : Tk.App) :
  Tk.canvas b = Tk.canvas a ->
  game_over_state (Tk.game b) = game_over_state (Tk.game a) ->
  score (Tk.game b) = score (Tk.game a) ->
  Tk.banner_ok a -> Tk.banner_ok b.
Proof.
  unfold Tk.banner_ok; intros -> -> ->; auto.
Qed.

Lemma banner_redrawn (a : Tk.App) (g : SnakeGame) :
  game_over_state (Tk.game a) = false -> game_over_state g = false ->
  Tk.banner_ok a ->
  Tk.banner_ok (Tk.with_canvas (Tk.redrawn g (Tk.canvas a))
                               (Tk.on_game (fun _ => g) a)).
Proof.
  unfold Tk.banner_ok; intros Ha Hg; rewrite Ha.
  cbn [Tk.canvas Tk.game Tk.with_canvas Tk.on_game]; rewrite Hg.
  rewrite !redrawn_tagged; auto.
Qed.

Lemma banner_move_snake (fuel : nat) (a : Tk.App) (r : Rng) (e : TickExit)
  (a' : Tk.App) (r' : Rng) :
  Tk.banner_ok a ->
  Tk.move_snake fuel a r = Done (e, a', r') ->
  Tk.banner_ok a'.
Proof.
  intros Hb H; rewrite move_snake_window in H.
  destruct (move_snake fuel (Tk.game a) r) as [[[e0 g'] r0]| | ] eqn:E;
    try discriminate.
  apply tick_frame in E; destruct e0; inversion H; subst.
  - exact Hb.
  - destruct E as [[_ Hov] _]; unfold Tk.banner_ok in *.
    rewrite Hov in Hb; destruct Hb as [H1 H2]; unfold Tk.game_over.
    cbn [Tk.canvas Tk.game Tk.with_canvas Tk.on_game Tk.with_start_button
         Tk.with_reset_button score game_over_state set_game_over_state
         set_game_running].
    rewrite !tagged_app, H1, H2; split; reflexivity.
  - destruct E as ([_ Hov] & _ & E2 & _); rewrite create_objects_eq.
    apply (banner_redrawn
             (Tk.with_score_label
                (String.append "Score: " (Tk.str (score g'))) a) g');
      [exact Hov | congruence | exact Hb].
  - destruct E as ([_ Hov] & _ & E2 & _); rewrite create_objects_eq.
    apply (banner_redrawn a g'); [exact Hov | congruence | exact Hb].
Qed.

Lemma banner_game_loop (fuel : nat) (a : Tk.App) (r : Rng)
  (a' : Tk.App) (r' : Rng) :
  Tk.banner_ok a ->
  Tk.game_loop fuel a r = Done (a', r') ->
  Tk.banner_ok a'.
Proof.
  intros Hb H; unfold Tk.game_loop in H.
  destruct (negb (game_over_state (Tk.game a)) && game_running (Tk.game a)).
  - destruct (Tk.move_snake fuel a r) as [[[e a1] r1]| | ] eqn:E;
      try discriminate.
    inversion H; subst; eapply banner_move_snake; eassumption.
  - inversion H; subst; exact Hb.
Qed.

Lemma banner_reset_game (fuel : nat) (i : bool) (a : Tk.App) (r : Rng)
  (a' : Tk.App) (r' : Rng) :
  Tk.reset_game fuel i a r = Done (a', r') -> Tk.banner_ok a'.
Proof.
  intros H; rewrite reset_game_window in H.
  destruct (reset_game fuel i (Tk.game a) r) as [[g r0]| | ] eqn:E;
    try discriminate.
  apply reset_game_inv in E; destruct E as (c & _ & _ & ->).
  inversion H; subst; unfold Tk.banner_ok.
  cbn [Tk.canvas Tk.game game_over_state]; rewrite !redrawn_tagged.
  split; reflexivity.
Qed.

(** X14: the banner is on the canvas exactly when the game is over.  After
    the constructor and after every event handled (the buttons following
    the flags), the canvas holds the text [GAME OVER!] and the text of the
    final score, once each and with the score of the game, when the game is
    over, and neither of them when it is not. *)
Theorem banner_iff_game_over :
  (forall fuel r a r', Tk.init fuel r = Done (a, r') -> Tk.banner_ok a) /\
  (forall ev fuel a r a' r',
     Tk.buttons_ok a -> Tk.banner_ok a ->
     Tk.handle ev fuel a r = Done (a', r') ->
     Tk.banner_ok a').
Proof.
  split; [intros fuel r a r'; apply banner_reset_game | ].
  intros ev fuel a r a' r' Hbt Hb H.
  assert (Hkey : forall d, Tk.banner_ok (Tk.change_direction d a)).
  { intros d; unfold Tk.change_direction.
    destruct (change_direction_fields d (Tk.game a)) as [E | E];
      (apply (banner_ext a); [reflexivity | | | exact Hb]);
      cbn [Tk.game Tk.on_game]; rewrite E; reflexivity. }
  destruct ev; cbn [Tk.handle] in H;
    try (inversion H; subst; apply Hkey).
  - eapply banner_reset_game; exact H.
  - destruct (Tk.start_button a) eqn:Es; [ | inversion H; subst; exact Hb].
    destruct (proj1 (proj1 Hbt) Es) as [Hrun Hov].
    unfold Tk.start_game in H; rewrite Hrun in H; cbn [negb] in H.
    eapply banner_game_loop; [ | exact H].
    apply (banner_ext a); try reflexivity; [ | exact Hb].
    cbn [Tk.game Tk.on_game Tk.with_start_button Tk.with_reset_button
         game_over_state set_game_over_state]; rewrite Hov; reflexivity.
  - destruct (Tk.reset_button a); [ | inversion H; subst; exact Hb].
    eapply banner_reset_game; exact H.
  - eapply banner_game_loop; eassumption.
Qed.

Lemma banner_iff_game_over_witness :
  Tk.banner_ok (Tk.game_over (Tk.on_game set_started Tk.app0)).
Proof.
  assert (H0 : Tk.banner_ok Tk.app0).
  { apply (proj1 banner_iff_game_over 1%nat zero_rng Tk.app0
             (skip 1 zero_rng)); reflexivity. }
  assert (H1 : Tk.buttons_ok Tk.app0).
  { split; split; try discriminate; cbn; auto.
    intros [H | H]; discriminate H. }
  apply (proj2 banner_iff_game_over Tk.ClickStart 0%nat Tk.app0 zero_rng
           _ zero_rng H1 H0); reflexivity.
Defined.
